(** * Pet adoption registry: a shallow embedding of [index.ts]

    The canister keeps four [StableBTreeMap]s keyed by [text] and exposes
    update and query methods over them.  Every method is embedded as a
    function on an explicit [State]; what the canister obtains from its
    environment during a call (the identifier drawn by [uuidv4()], the
    caller's principal, the current date) is an argument of the embedded
    method.

    A [text] is a [string] whose characters stand for the code units of the
    JavaScript string; the embedding covers the code units below 256. *)

From Stdlib Require Import String Ascii NArith List Bool.
From stdpp Require Import base option list gmap strings fin_maps.

Open Scope string_scope.

Definition text := string.

(** ** Strings: [trim], [toLowerCase] *)

Module Str.

(** White space and line terminators of ECMAScript among the code units
    below 256: TAB, LF, VT, FF, CR, SP and NBSP.  The same set is the
    class [\s] of regular expressions. *)
Definition isWhiteSpace (c : ascii) : bool :=
  let n := N_of_ascii c in
  ((9 <=? n) && (n <=? 13) || (n =? 32) || (n =? 160))%N.

Fixpoint trimStart (s : string) : string :=
  match s with
  | EmptyString => EmptyString
  | String c r => if isWhiteSpace c then trimStart r else s
  end.

Fixpoint trimEnd (s : string) : string :=
  match s with
  | EmptyString => EmptyString
  | String c r =>
      match trimEnd r with
      | EmptyString => if isWhiteSpace c then EmptyString else String c EmptyString
      | r' => String c r'
      end
  end.

Definition trim (s : string) : string := trimEnd (trimStart s).

(** [s.trim().length > 0] *)
Definition nonBlank (s : string) : bool := negb (Nat.eqb (String.length (trim s)) 0).

(** Lower-case mapping of one code unit below 256: [A-Z], and the
    capital letters U+00C0..U+00DE without the multiplication sign. *)
Definition lowerChar (c : ascii) : ascii :=
  let n := N_of_ascii c in
  if ((65 <=? n) && (n <=? 90) || (192 <=? n) && (n <=? 222) && negb (n =? 215))%N
  then ascii_of_N (n + 32) else c.

Fixpoint toLowerCase (s : string) : string :=
  match s with
  | EmptyString => EmptyString
  | String c r => String (lowerChar c) (toLowerCase r)
  end.

End Str.

(** ** Regular expressions

    The two patterns of the source are anchored at both ends ([^...$],
    no flags), so [test] is a match of the whole string.  Matching is by
    derivatives. *)

Module Regex.

Inductive t : Type :=
| Void
| Eps
| Class (f : ascii -> bool)
| Cat (r1 r2 : t)
| Alt (r1 r2 : t)
| Star (r : t).

Definition Plus (r : t) : t := Cat r (Star r).
Definition Opt (r : t) : t := Alt Eps r.

Fixpoint power (n : nat) (r : t) : t :=
  match n with
  | O => Eps
  | S n' => Cat r (power n' r)
  end.

(** [r{lo,lo+extra}] *)
Definition Range (lo extra : nat) (r : t) : t :=
  Cat (power lo r) (power extra (Opt r)).

Fixpoint nullable (r : t) : bool :=
  match r with
  | Void => false
  | Eps => true
  | Class _ => false
  | Cat r1 r2 => nullable r1 && nullable r2
  | Alt r1 r2 => nullable r1 || nullable r2
  | Star _ => true
  end.

Fixpoint deriv (c : ascii) (r : t) : t :=
  match r with
  | Void => Void
  | Eps => Void
  | Class f => if f c then Eps else Void
  | Cat r1 r2 =>
      if nullable r1
      then Alt (Cat (deriv c r1) r2) (deriv c r2)
      else Cat (deriv c r1) r2
  | Alt r1 r2 => Alt (deriv c r1) (deriv c r2)
  | Star r' => Cat (deriv c r') (Star r')
  end.

Fixpoint test (r : t) (s : string) : bool :=
  match s with
  | EmptyString => nullable r
  | String c s' => test (deriv c r) s'
  end.

End Regex.

(** ** Input validation *)

(** [[^\s@]] *)
Definition notSpaceNorAt (c : ascii) : bool :=
  negb (Str.isWhiteSpace c) && negb (Ascii.eqb c "@").

Definition isChar (d c : ascii) : bool := Ascii.eqb c d.

(** [[0-9]] *)
Definition isDigit (c : ascii) : bool :=
  let n := N_of_ascii c in ((48 <=? n) && (n <=? 57))%N.

(** [/^[^\s@]+@[^\s@]+\.[^\s@]+$/] *)
Definition emailRegex : Regex.t :=
  Regex.Cat (Regex.Plus (Regex.Class notSpaceNorAt))
    (Regex.Cat (Regex.Class (isChar "@"))
       (Regex.Cat (Regex.Plus (Regex.Class notSpaceNorAt))
          (Regex.Cat (Regex.Class (isChar "."))
             (Regex.Plus (Regex.Class notSpaceNorAt))))).

Definition isValidEmail (email : text) : bool := Regex.test emailRegex email.

(** [/^[0-9]{10,15}$/] *)
Definition phoneRegex : Regex.t := Regex.Range 10 5 (Regex.Class isDigit).

Definition isValidPhoneNumber (phoneNumber : text) : bool :=
  Regex.test phoneRegex phoneNumber.

(** ** Records and payloads

    Payloads arrive decoded from Candid at their declared record type, so
    every field read by a validator is a string and the [typeof] tests of
    the source hold; what remains of each validator is below. *)

(** A [Principal] is used through [toText()] only. *)
Definition Principal := string.

Record User := mkUser {
  User_id : text;
  User_principal : Principal;
  User_name : text;
  User_phoneNumber : text;
  User_email : text;
  User_address : text;
  User_application : list text;
}.

Record UserPayload := mkUserPayload {
  UserPayload_name : text;
  UserPayload_phoneNumber : text;
  UserPayload_email : text;
  UserPayload_address : text;
}.

Record Pet := mkPet {
  Pet_id : text;
  Pet_name : text;
  Pet_species : text;
  Pet_breed : text;
  Pet_gender : text;
  Pet_age : text;
  Pet_petImage : text;
  Pet_description : text;
  Pet_healthStatus : text;
  Pet_shelterId : text;
  Pet_status : text;
}.

Record PetPayload := mkPetPayload {
  PetPayload_name : text;
  PetPayload_species : text;
  PetPayload_breed : text;
  PetPayload_gender : text;
  PetPayload_age : text;
  PetPayload_petImage : text;
  PetPayload_description : text;
  PetPayload_healthStatus : text;
  PetPayload_shelterId : text;
}.

Record PetImage := mkPetImage {
  PetImage_petId : text;
  PetImage_petImage : text;
}.

Record UpdatePetPayload := mkUpdatePetPayload {
  UpdatePetPayload_petId : text;
  UpdatePetPayload_healthStatus : text;
  UpdatePetPayload_age : text;
}.

Record Shelter := mkShelter {
  Shelter_id : text;
  Shelter_principal : Principal;
  Shelter_name : text;
  Shelter_location : text;
  Shelter_phoneNumber : text;
  Shelter_email : text;
  Shelter_pets : list text;
}.

Record ShelterPayload := mkShelterPayload {
  ShelterPayload_name : text;
  ShelterPayload_location : text;
  ShelterPayload_phoneNumber : text;
  ShelterPayload_email : text;
}.

Record UpdateShelterPayload := mkUpdateShelterPayload {
  UpdateShelterPayload_id : text;
  UpdateShelterPayload_phoneNumber : text;
  UpdateShelterPayload_email : text;
}.

(** The intermediate object [adoption] built by [fileForAdoption]. *)
Record Adoption := mkAdoption {
  Adoption_id : text;
  Adoption_petId : text;
  Adoption_userId : text;
  Adoption_userPhoneNumber : text;
  Adoption_address : text;
  Adoption_reasonForAdoption : text;
}.

Record AdoptionPayload := mkAdoptionPayload {
  AdoptionPayload_petId : text;
  AdoptionPayload_userId : text;
  AdoptionPayload_userPhoneNumber : text;
  AdoptionPayload_address : text;
  AdoptionPayload_reasonForAdoption : text;
}.

Record AdoptionRecords := mkAdoptionRecords {
  AdoptionRecords_adoptionId : text;
  AdoptionRecords_userId : text;
  AdoptionRecords_petId : text;
  AdoptionRecords_petName : text;
  AdoptionRecords_userName : text;
  AdoptionRecords_userPhoneNumber : text;
  AdoptionRecords_address : text;
  AdoptionRecords_reasonForAdoption : text;
  AdoptionRecords_dateOfAdoption : text;
  AdoptionRecords_status : text;
}.

Record UpdateAdoption := mkUpdateAdoption {
  UpdateAdoption_adoptionId : text;
  UpdateAdoption_userName : text;
  UpdateAdoption_userPhoneNumber : text;
  UpdateAdoption_address : text;
  UpdateAdoption_reasonForAdoption : text;
}.

Inductive Error : Type :=
| NotFound (detail : text)
| InvalidPayload (detail : text)
| ValidationError (detail : text).

Inductive Result (A : Type) : Type :=
| Ok (a : A)
| Err (e : Error).

Arguments Ok {A} a.
Arguments Err {A} e.

#[global] Instance User_eq_dec : EqDecision User.
Proof. solve_decision. Defined.
#[global] Instance Pet_eq_dec : EqDecision Pet.
Proof. solve_decision. Defined.
#[global] Instance Shelter_eq_dec : EqDecision Shelter.
Proof. solve_decision. Defined.
#[global] Instance AdoptionRecords_eq_dec : EqDecision AdoptionRecords.
Proof. solve_decision. Defined.

(** *** Validators *)

Definition validateUserPayload (payload : UserPayload) : bool :=
  Str.nonBlank (UserPayload_name payload) &&
  isValidPhoneNumber (UserPayload_phoneNumber payload) &&
  isValidEmail (UserPayload_email payload) &&
  Str.nonBlank (UserPayload_address payload).

Definition validatePetPayload (payload : PetPayload) : bool :=
  Str.nonBlank (PetPayload_name payload) &&
  Str.nonBlank (PetPayload_species payload) &&
  Str.nonBlank (PetPayload_breed payload) &&
  Str.nonBlank (PetPayload_gender payload) &&
  Str.nonBlank (PetPayload_age payload) &&
  Str.nonBlank (PetPayload_petImage payload) &&
  Str.nonBlank (PetPayload_description payload) &&
  Str.nonBlank (PetPayload_healthStatus payload) &&
  Str.nonBlank (PetPayload_shelterId payload).

Definition validateShelterPayload (payload : ShelterPayload) : bool :=
  Str.nonBlank (ShelterPayload_name payload) &&
  Str.nonBlank (ShelterPayload_location payload) &&
  isValidPhoneNumber (ShelterPayload_phoneNumber payload) &&
  isValidEmail (ShelterPayload_email payload).

Definition validateAdoptionPayload (payload : AdoptionPayload) : bool :=
  Str.nonBlank (AdoptionPayload_petId payload) &&
  Str.nonBlank (AdoptionPayload_userId payload) &&
  isValidPhoneNumber (AdoptionPayload_userPhoneNumber payload) &&
  Str.nonBlank (AdoptionPayload_address payload) &&
  Str.nonBlank (AdoptionPayload_reasonForAdoption payload).

(** The fields that [validatePetPayload] destructures from a pet-shaped
    object ([updatePetInfo] passes it a merged [Pet]). *)
Definition Pet_fields (p : Pet) : PetPayload :=
  mkPetPayload (Pet_name p) (Pet_species p) (Pet_breed p) (Pet_gender p)
    (Pet_age p) (Pet_petImage p) (Pet_description p) (Pet_healthStatus p)
    (Pet_shelterId p).

(** Likewise for [validateShelterPayload] in [updateShelterInfo]. *)
Definition Shelter_fields (s : Shelter) : ShelterPayload :=
  mkShelterPayload (Shelter_name s) (Shelter_location s)
    (Shelter_phoneNumber s) (Shelter_email s).

(** *** Object spreads and field assignments of the source *)

(** [{ id, principal, application: [], ...payload }] *)
Definition newUser (userId : text) (caller : Principal) (payload : UserPayload) : User :=
  mkUser userId caller (UserPayload_name payload) (UserPayload_phoneNumber payload)
    (UserPayload_email payload) (UserPayload_address payload) [].

(** [{ id, status: "notAdopted", ...payload }] *)
Definition newPet (petId : text) (payload : PetPayload) : Pet :=
  mkPet petId (PetPayload_name payload) (PetPayload_species payload)
    (PetPayload_breed payload) (PetPayload_gender payload) (PetPayload_age payload)
    (PetPayload_petImage payload) (PetPayload_description payload)
    (PetPayload_healthStatus payload) (PetPayload_shelterId payload) "notAdopted".

(** [{ id, principal, pets: [], ...payload }] *)
Definition newShelter (shelterId : text) (caller : Principal) (payload : ShelterPayload) : Shelter :=
  mkShelter shelterId caller (ShelterPayload_name payload) (ShelterPayload_location payload)
    (ShelterPayload_phoneNumber payload) (ShelterPayload_email payload) [].

(** [user.application.push(id)] *)
Definition User_push_application (u : User) (adoptionId : text) : User :=
  mkUser (User_id u) (User_principal u) (User_name u) (User_phoneNumber u)
    (User_email u) (User_address u) (User_application u ++ [adoptionId]).

(** [shelter.pets.push(petId)] *)
Definition Shelter_push_pets (s : Shelter) (petId : text) : Shelter :=
  mkShelter (Shelter_id s) (Shelter_principal s) (Shelter_name s) (Shelter_location s)
    (Shelter_phoneNumber s) (Shelter_email s) (Shelter_pets s ++ [petId]).

(** [pet.petImage = image] *)
Definition Pet_set_petImage (p : Pet) (image : text) : Pet :=
  mkPet (Pet_id p) (Pet_name p) (Pet_species p) (Pet_breed p) (Pet_gender p)
    (Pet_age p) image (Pet_description p) (Pet_healthStatus p) (Pet_shelterId p)
    (Pet_status p).

(** [{ ...pet, status }] *)
Definition Pet_set_status (p : Pet) (status : text) : Pet :=
  mkPet (Pet_id p) (Pet_name p) (Pet_species p) (Pet_breed p) (Pet_gender p)
    (Pet_age p) (Pet_petImage p) (Pet_description p) (Pet_healthStatus p)
    (Pet_shelterId p) status.

(** [{ ...pet, ...payload }] for an [UpdatePetPayload]: [healthStatus] and
    [age] are overwritten; the extra property [petId] is not a field of
    [Pet] and is dropped when the object is stored or returned as a [Pet]. *)
Definition Pet_merge (p : Pet) (payload : UpdatePetPayload) : Pet :=
  mkPet (Pet_id p) (Pet_name p) (Pet_species p) (Pet_breed p) (Pet_gender p)
    (UpdatePetPayload_age payload) (Pet_petImage p) (Pet_description p)
    (UpdatePetPayload_healthStatus payload) (Pet_shelterId p) (Pet_status p).

(** [{ ...shelter, ...payload }] for an [UpdateShelterPayload]: [id],
    [phoneNumber] and [email] are overwritten. *)
Definition Shelter_merge (s : Shelter) (payload : UpdateShelterPayload) : Shelter :=
  mkShelter (UpdateShelterPayload_id payload) (Shelter_principal s) (Shelter_name s)
    (Shelter_location s) (UpdateShelterPayload_phoneNumber payload)
    (UpdateShelterPayload_email payload) (Shelter_pets s).

(** [{ ...adoption, status }] *)
Definition AdoptionRecords_set_status (a : AdoptionRecords) (status : text) : AdoptionRecords :=
  mkAdoptionRecords (AdoptionRecords_adoptionId a) (AdoptionRecords_userId a)
    (AdoptionRecords_petId a) (AdoptionRecords_petName a) (AdoptionRecords_userName a)
    (AdoptionRecords_userPhoneNumber a) (AdoptionRecords_address a)
    (AdoptionRecords_reasonForAdoption a) (AdoptionRecords_dateOfAdoption a) status.

(** [{ ...adoption, userName, userPhoneNumber, address, reasonForAdoption }] *)
Definition AdoptionRecords_merge (a : AdoptionRecords) (payload : UpdateAdoption) : AdoptionRecords :=
  mkAdoptionRecords (AdoptionRecords_adoptionId a) (AdoptionRecords_userId a)
    (AdoptionRecords_petId a) (AdoptionRecords_petName a) (UpdateAdoption_userName payload)
    (UpdateAdoption_userPhoneNumber payload) (UpdateAdoption_address payload)
    (UpdateAdoption_reasonForAdoption payload) (AdoptionRecords_dateOfAdoption a)
    (AdoptionRecords_status a).

(** [adoption.id] in [updateAdoptionRecord]: an [AdoptionRecords] value has
    the field [adoptionId] and no field [id], so the read is [undefined]. *)
Definition AdoptionRecords_id (a : AdoptionRecords) : option text := None.

(** ** The four stores *)

Record State := mkState {
  UsersStorage : gmap text User;
  PetsStorage : gmap text Pet;
  SheltersStorage : gmap text Shelter;
  AdoptionsStorage : gmap text AdoptionRecords;
}.

Definition init : State := mkState ∅ ∅ ∅ ∅.

Definition set_Users (s : State) (m : gmap text User) : State :=
  mkState m (PetsStorage s) (SheltersStorage s) (AdoptionsStorage s).
Definition set_Pets (s : State) (m : gmap text Pet) : State :=
  mkState (UsersStorage s) m (SheltersStorage s) (AdoptionsStorage s).
Definition set_Shelters (s : State) (m : gmap text Shelter) : State :=
  mkState (UsersStorage s) (PetsStorage s) m (AdoptionsStorage s).
Definition set_Adoptions (s : State) (m : gmap text AdoptionRecords) : State :=
  mkState (UsersStorage s) (PetsStorage s) (SheltersStorage s) m.

(** [StableBTreeMap.values()].  The order in which the map lists its
    values is the map's own; nothing below depends on it. *)
Definition values {V : Type} (m : gmap text V) : list V :=
  (map_to_list m).*2.

(** [StableBTreeMap.insert(key, value)] with a key that may be
    [undefined]: the key is serialised as [text], which throws for a value
    that is not a string, and the call is aborted. *)
Definition insert_key {V : Type} (key : option text) (v : V) (m : gmap text V)
  : option (gmap text V) :=
  match key with
  | Some k => Some (<[k := v]> m)
  | None => None
  end.

(** ** The canister methods

    An update method maps a state to its reply and the next state; a query
    method maps a state to its reply. *)

(** *** User operations *)

Definition addUser (caller : Principal) (userId : text) (payload : UserPayload)
  (s : State) : Result User * State :=
  if negb (validateUserPayload payload) then
    (Err (ValidationError "Invalid user payload. Please check all fields."), s)
  else
    let user := newUser userId caller payload in
    (Ok user, set_Users s (<[userId := user]> (UsersStorage s))).

Definition getUsers (s : State) : list User := values (UsersStorage s).

Definition getUser (id : text) (s : State) : option User := UsersStorage s !! id.

Definition getUserOwner (caller : Principal) (s : State) : Result User :=
  match filter (fun user => User_principal user = caller) (values (UsersStorage s)) with
  | [] => Err (NotFound ("User with principal=" ++ caller ++ " not found"))
  | user :: _ => Ok user
  end.

(** *** Pet operations *)

Definition addPet (petId : text) (payload : PetPayload) (s : State)
  : Result Pet * State :=
  if negb (validatePetPayload payload) then
    (Err (ValidationError "Invalid pet payload. Please check all fields."), s)
  else
    match SheltersStorage s !! PetPayload_shelterId payload with
    | None =>
        (Err (NotFound ("Shelter with ID " ++ PetPayload_shelterId payload ++ " not found.")), s)
    | Some shelter =>
        let pet := newPet petId payload in
        let s1 := set_Pets s (<[petId := pet]> (PetsStorage s)) in
        let shelter' := Shelter_push_pets shelter petId in
        (Ok pet, set_Shelters s1 (<[Shelter_id shelter' := shelter']> (SheltersStorage s1)))
    end.

Definition addPetImage (payload : PetImage) (s : State) : Result PetImage * State :=
  match PetsStorage s !! PetImage_petId payload with
  | None => (Err (NotFound ("Pet with ID " ++ PetImage_petId payload ++ " not found.")), s)
  | Some pet =>
      let pet' := Pet_set_petImage pet (PetImage_petImage payload) in
      (Ok payload, set_Pets s (<[Pet_id pet' := pet']> (PetsStorage s)))
  end.

Definition getPet (id : text) (s : State) : option Pet := PetsStorage s !! id.

Definition getPets (s : State) : list Pet := values (PetsStorage s).

Definition getPetsNotAdopted (s : State) : list Pet :=
  filter (fun pet => Pet_status pet = "notAdopted") (values (PetsStorage s)).

Definition updatePetInfo (payload : UpdatePetPayload) (s : State) : Result Pet * State :=
  match PetsStorage s !! UpdatePetPayload_petId payload with
  | None => (Err (NotFound "Pet not found."), s)
  | Some pet =>
      let updatedPayload := Pet_merge pet payload in
      if negb (validatePetPayload (Pet_fields updatedPayload)) then
        (Err (ValidationError "Invalid pet payload. Please check all fields."), s)
      else
        let updatedPet := Pet_merge pet payload in
        (Ok updatedPet, set_Pets s (<[Pet_id pet := updatedPet]> (PetsStorage s)))
  end.

(** *** Shelter operations *)

Definition createShelter (caller : Principal) (shelterId : text) (payload : ShelterPayload)
  (s : State) : Result Shelter * State :=
  if negb (validateShelterPayload payload) then
    (Err (ValidationError "Invalid shelter payload. Please check all fields."), s)
  else
    let shelter := newShelter shelterId caller payload in
    (Ok shelter, set_Shelters s (<[shelterId := shelter]> (SheltersStorage s))).

Definition getShelter (id : text) (s : State) : option Shelter := SheltersStorage s !! id.

Definition getShelters (s : State) : list Shelter := values (SheltersStorage s).

Definition getShelterOwner (caller : Principal) (s : State) : Result Shelter :=
  match filter (fun shelter => Shelter_principal shelter = caller) (values (SheltersStorage s)) with
  | [] => Err (NotFound ("Shelter with principal=" ++ caller ++ " not found"))
  | shelter :: _ => Ok shelter
  end.

Definition updateShelterInfo (payload : UpdateShelterPayload) (s : State)
  : Result Shelter * State :=
  match SheltersStorage s !! UpdateShelterPayload_id payload with
  | None => (Err (NotFound "Shelter not found."), s)
  | Some shelter =>
      let updatedPayload := Shelter_merge shelter payload in
      if negb (validateShelterPayload (Shelter_fields updatedPayload)) then
        (Err (ValidationError "Invalid shelter payload. Please check all fields."), s)
      else
        let updatedShelter := Shelter_merge shelter payload in
        (Ok updatedShelter,
         set_Shelters s (<[Shelter_id shelter := updatedShelter]> (SheltersStorage s)))
  end.

Definition searchPetsBySpecies (species : text) (s : State) : list Pet :=
  filter (fun pet => Str.toLowerCase (Pet_species pet) = Str.toLowerCase species)
    (values (PetsStorage s)).

(** *** Adoption operations *)

Definition fileForAdoption (adoptionId now : text) (payload : AdoptionPayload) (s : State)
  : Result AdoptionRecords * State :=
  if negb (validateAdoptionPayload payload) then
    (Err (ValidationError "Invalid adoption payload. Please check all fields."), s)
  else
    match UsersStorage s !! AdoptionPayload_userId payload with
    | None =>
        (Err (NotFound ("User with ID " ++ AdoptionPayload_userId payload ++ " not found.")), s)
    | Some user =>
        match PetsStorage s !! AdoptionPayload_petId payload with
        | None =>
            (Err (NotFound ("Pet with ID " ++ AdoptionPayload_petId payload ++ " not found.")), s)
        | Some pet =>
            (* Check if pet is already adopted or pending *)
            if negb (bool_decide (Pet_status pet = "notAdopted")) then
              (Err (InvalidPayload "Pet is not available for adoption."), s)
            else
              let adoption :=
                mkAdoption adoptionId (Pet_id pet) (User_id user) (User_phoneNumber user)
                  (User_address user) (AdoptionPayload_reasonForAdoption payload) in
              let records :=
                mkAdoptionRecords (Adoption_id adoption) (Adoption_userId adoption)
                  (Adoption_petId adoption) (Pet_name pet) (User_name user)
                  (Adoption_userPhoneNumber adoption) (Adoption_address adoption)
                  (Adoption_reasonForAdoption adoption) now "pending" in
              let user' := User_push_application user (AdoptionRecords_adoptionId records) in
              let s1 := set_Users s (<[User_id user' := user']> (UsersStorage s)) in
              (Ok records,
               set_Adoptions s1
                 (<[AdoptionRecords_adoptionId records := records]> (AdoptionsStorage s1)))
        end
    end.

Definition getAdoptionRecords (s : State) : list AdoptionRecords :=
  values (AdoptionsStorage s).

Definition getAdoptionRecord (id : text) (s : State) : option AdoptionRecords :=
  AdoptionsStorage s !! id.

(** [updateAdoptionRecord] writes under the key [adoption.id].  When the
    insertion throws, the method has no reply: the result is [None]. *)
Definition updateAdoptionRecord (payload : UpdateAdoption) (s : State)
  : option (Result AdoptionRecords * State) :=
  match AdoptionsStorage s !! UpdateAdoption_adoptionId payload with
  | None => Some (Err (NotFound "Adoption record not found."), s)
  | Some adoption =>
      if negb (Str.nonBlank (UpdateAdoption_userName payload)) ||
         negb (isValidPhoneNumber (UpdateAdoption_userPhoneNumber payload)) ||
         negb (Str.nonBlank (UpdateAdoption_address payload)) ||
         negb (Str.nonBlank (UpdateAdoption_reasonForAdoption payload))
      then Some (Err (ValidationError "Invalid adoption update payload."), s)
      else
        let updatedAdoption := AdoptionRecords_merge adoption payload in
        match insert_key (AdoptionRecords_id adoption) updatedAdoption (AdoptionsStorage s) with
        | None => None
        | Some m => Some (Ok updatedAdoption, set_Adoptions s m)
        end
  end.

Definition completeAdoption (adoptionId : text) (s : State)
  : Result AdoptionRecords * State :=
  match AdoptionsStorage s !! adoptionId with
  | None => (Err (NotFound "Adoption record not found."), s)
  | Some adoption =>
      if negb (bool_decide (AdoptionRecords_status adoption = "pending")) then
        (Err (InvalidPayload "Only pending adoptions can be completed."), s)
      else
        match PetsStorage s !! AdoptionRecords_petId adoption with
        | None => (Err (NotFound "Associated pet not found."), s)
        | Some pet =>
            let updatedPet := Pet_set_status pet "adopted" in
            let s1 := set_Pets s (<[Pet_id pet := updatedPet]> (PetsStorage s)) in
            let updatedAdoption := AdoptionRecords_set_status adoption "completed" in
            (Ok updatedAdoption,
             set_Adoptions s1 (<[adoptionId := updatedAdoption]> (AdoptionsStorage s1)))
        end
  end.

Definition failAdoption (adoptionId : text) (s : State)
  : Result AdoptionRecords * State :=
  match AdoptionsStorage s !! adoptionId with
  | None => (Err (NotFound "Adoption record not found."), s)
  | Some adoption =>
      if negb (bool_decide (AdoptionRecords_status adoption = "pending")) then
        (Err (InvalidPayload "Only pending adoptions can be failed."), s)
      else
        let updatedAdoption := AdoptionRecords_set_status adoption "failed" in
        (Ok updatedAdoption,
         set_Adoptions s (<[adoptionId := updatedAdoption]> (AdoptionsStorage s)))
  end.

(** ** Calls and traces

    A [Call] is one invocation of a method that can reply with an error,
    together with what the environment supplies to it. *)

Inductive Call : Type :=
| CallAddUser (caller : Principal) (uuid : text) (payload : UserPayload)
| CallGetUserOwner (caller : Principal)
| CallAddPet (uuid : text) (payload : PetPayload)
| CallAddPetImage (payload : PetImage)
| CallUpdatePetInfo (payload : UpdatePetPayload)
| CallCreateShelter (caller : Principal) (uuid : text) (payload : ShelterPayload)
| CallGetShelterOwner (caller : Principal)
| CallUpdateShelterInfo (payload : UpdateShelterPayload)
| CallFileForAdoption (uuid now : text) (payload : AdoptionPayload)
| CallUpdateAdoptionRecord (payload : UpdateAdoption)
| CallCompleteAdoption (adoptionId : text)
| CallFailAdoption (adoptionId : text).

Inductive Reply : Type :=
| ReplyUser (r : Result User)
| ReplyPet (r : Result Pet)
| ReplyPetImage (r : Result PetImage)
| ReplyShelter (r : Result Shelter)
| ReplyAdoption (r : Result AdoptionRecords)
| Trapped.

Definition reply {A : Type} (wrap : Result A -> Reply) (x : Result A * State)
  : Reply * State := (wrap x.1, x.2).

(** A call that throws is rolled back by the host: the stores keep their
    contents (and [updateAdoptionRecord] has not written to any store by
    the time it throws). *)
Definition exec (c : Call) (s : State) : Reply * State :=
  match c with
  | CallAddUser caller uuid payload => reply ReplyUser (addUser caller uuid payload s)
  | CallGetUserOwner caller => (ReplyUser (getUserOwner caller s), s)
  | CallAddPet uuid payload => reply ReplyPet (addPet uuid payload s)
  | CallAddPetImage payload => reply ReplyPetImage (addPetImage payload s)
  | CallUpdatePetInfo payload => reply ReplyPet (updatePetInfo payload s)
  | CallCreateShelter caller uuid payload => reply ReplyShelter (createShelter caller uuid payload s)
  | CallGetShelterOwner caller => (ReplyShelter (getShelterOwner caller s), s)
  | CallUpdateShelterInfo payload => reply ReplyShelter (updateShelterInfo payload s)
  | CallFileForAdoption uuid now payload => reply ReplyAdoption (fileForAdoption uuid now payload s)
  | CallUpdateAdoptionRecord payload =>
      match updateAdoptionRecord payload s with
      | Some x => reply ReplyAdoption x
      | None => (Trapped, s)
      end
  | CallCompleteAdoption adoptionId => reply ReplyAdoption (completeAdoption adoptionId s)
  | CallFailAdoption adoptionId => reply ReplyAdoption (failAdoption adoptionId s)
  end.

Definition result_error {A : Type} (r : Result A) : option Error :=
  match r with
  | Ok _ => None
  | Err e => Some e
  end.

Definition reply_error (r : Reply) : option Error :=
  match r with
  | ReplyUser r => result_error r
  | ReplyPet r => result_error r
  | ReplyPetImage r => result_error r
  | ReplyShelter r => result_error r
  | ReplyAdoption r => result_error r
  | Trapped => None
  end.

(** The stores after a list of calls, oldest first. *)
Definition run (cs : list Call) (s : State) : State :=
  fold_left (fun st c => (exec c st).2) cs s.

(** The identifier that a call draws from [uuidv4()], if it draws one
    before it fails. *)
Definition call_uuid (c : Call) : option text :=
  match c with
  | CallAddUser _ uuid _ | CallAddPet uuid _ | CallCreateShelter _ uuid _
  | CallFileForAdoption uuid _ _ => Some uuid
  | _ => None
  end.

(** An identifier is unused when no store has it as a key. *)
Definition unused (id : text) (s : State) : Prop :=
  UsersStorage s !! id = None /\ PetsStorage s !! id = None /\
  SheltersStorage s !! id = None /\ AdoptionsStorage s !! id = None.

(** [uuidv4()] is taken to return an identifier that is not in use. *)
Definition uuid_fresh (c : Call) (s : State) : Prop :=
  match call_uuid c with
  | Some id => unused id s
  | None => True
  end.

(** The states of the canister: the empty stores, closed under calls. *)
Inductive reachable : State -> Prop :=
| reachable_init : reachable init
| reachable_exec c s : reachable s -> uuid_fresh c s -> reachable (exec c s).2.

(** ** Invariants of the stores *)

(** Every value of the map is stored under its own identifier. *)
Definition keyed {V : Type} (id : V -> text) (m : gmap text V) : Prop :=
  map_Forall (fun k v => id v = k) m.

Definition wf (s : State) : Prop :=
  keyed User_id (UsersStorage s) /\
  keyed Pet_id (PetsStorage s) /\
  keyed Shelter_id (SheltersStorage s) /\
  keyed AdoptionRecords_adoptionId (AdoptionsStorage s).

(** Every pet id in a shelter's list is the key of a pet whose
    [shelterId] is that shelter's id. *)
Definition shelter_pets_ok (s : State) : Prop :=
  map_Forall (fun _ shelter =>
    Forall (fun petId => Pet_shelterId <$> PetsStorage s !! petId = Some (Shelter_id shelter))
      (Shelter_pets shelter))
    (SheltersStorage s).

(** At most one pending adoption record for each pet. *)
Definition one_pending_per_pet (s : State) : Prop :=
  forall (petId a1 a2 : text) (r1 r2 : AdoptionRecords),
    AdoptionsStorage s !! a1 = Some r1 ->
    AdoptionsStorage s !! a2 = Some r2 ->
    AdoptionRecords_status r1 = "pending" ->
    AdoptionRecords_status r2 = "pending" ->
    AdoptionRecords_petId r1 = petId ->
    AdoptionRecords_petId r2 = petId ->
    a1 = a2.

(** [shelter_pets_ok], on the two stores it reads and by lookups. *)
Definition refs_ok (pets : gmap text Pet) (shelters : gmap text Shelter) : Prop :=
  forall k shelter petId,
    shelters !! k = Some shelter -> petId ∈ Shelter_pets shelter ->
    exists pet, pets !! petId = Some pet /\ Pet_shelterId pet = Shelter_id shelter.

(** Case-insensitive equality, letter by letter: two code units are the
    same letter when they are equal or one is the lower case of the other;
    two strings are equal ignoring case when they have the same length and
    the same letter at every position. *)
Definition sameLetter (c d : ascii) : Prop :=
  c = d \/ Str.lowerChar c = d \/ Str.lowerChar d = c.

Fixpoint equalIgnoringCase (a b : string) : Prop :=
  match a, b with
  | EmptyString, EmptyString => True
  | String c a', String d b' => sameLetter c d /\ equalIgnoringCase a' b'
  | _, _ => False
  end.

(** The capital of a lower-case code unit (32 below it). *)
Definition upperOf (c : ascii) : ascii := ascii_of_N (N_of_ascii c - 32).

#[global] Instance keyed_dec {V : Type} (id : V -> text) (m : gmap text V) :
  Decision (keyed id m).
Proof. unfold keyed. apply _. Defined.

#[global] Instance wf_dec (s : State) : Decision (wf s).
Proof. unfold wf. apply _. Defined.

#[global] Instance shelter_pets_ok_dec (s : State) : Decision (shelter_pets_ok s).
Proof. unfold shelter_pets_ok. apply _. Defined.

#[global] Instance unused_dec (id : text) (s : State) : Decision (unused id s).
Proof. unfold unused. apply _. Defined.

#[global] Instance uuid_fresh_dec (c : Call) (s : State) : Decision (uuid_fresh c s).
Proof. unfold uuid_fresh. destruct (call_uuid c); apply _. Defined.

(** Every call of a trace draws an unused identifier. *)
Fixpoint trace_fresh (cs : list Call) (s : State) : Prop :=
  match cs with
  | [] => True
  | c :: cs' => uuid_fresh c s /\ trace_fresh cs' (exec c s).2
  end.

#[global] Instance trace_fresh_dec (cs : list Call) (s : State) : Decision (trace_fresh cs s).
Proof. revert s. induction cs as [|c cs IH]; intros s; simpl; apply _. Defined.

(** ** A sample history

    One shelter, one pet, one user, and two filings for the same pet. *)

Module Sample.

Definition shelterPayload : ShelterPayload :=
  mkShelterPayload "Happy Paws" "Nairobi" "0712345678" "paws@example.org".

Definition petPayload : PetPayload :=
  mkPetPayload "Rex" "Dog" "Beagle" "male" "3" "rex.png" "friendly" "healthy" "s-1".

Definition userPayload : UserPayload :=
  mkUserPayload "Ann" "0798765432" "ann@example.org" "12 Hill Road".

Definition adoptionPayload : AdoptionPayload :=
  mkAdoptionPayload "p-1" "u-1" "0700000000" "7 Lake View" "company".

(** Resolving ids, but a phone number that is not 10 to 15 digits. *)
Definition badAdoptionPayload : AdoptionPayload :=
  mkAdoptionPayload "p-1" "u-1" "n/a" "7 Lake View" "company".

Definition setup : list Call :=
  [ CallCreateShelter "owner" "s-1" shelterPayload;
    CallAddPet "p-1" petPayload;
    CallAddUser "ann" "u-1" userPayload ].

Definition file1 : Call := CallFileForAdoption "a-1" "2024-01-01T00:00:00.000Z" adoptionPayload.
Definition file2 : Call := CallFileForAdoption "a-2" "2024-01-02T00:00:00.000Z" adoptionPayload.

(** shelter, pet and user exist; nothing filed *)
Definition registered : State := run setup init.
(** one pending record *)
Definition filed : State := run [file1] registered.
(** two pending records for ["p-1"] *)
Definition filedTwice : State := run [file2] filed.
(** ["a-1"] completed, ["a-2"] still pending, pet adopted *)
Definition completedFirst : State := run [CallCompleteAdoption "a-1"] filedTwice.

End Sample.

(** ** Notions for the further properties *)

(** The strings that a regular expression denotes. *)
Inductive regex_matches : Regex.t -> string -> Prop :=
| matches_eps : regex_matches Regex.Eps ""
| matches_class f c : f c = true -> regex_matches (Regex.Class f) (String c "")
| matches_cat r1 r2 s1 s2 :
    regex_matches r1 s1 -> regex_matches r2 s2 -> regex_matches (Regex.Cat r1 r2) (s1 ++ s2)
| matches_alt_l r1 r2 s : regex_matches r1 s -> regex_matches (Regex.Alt r1 r2) s
| matches_alt_r r1 r2 s : regex_matches r2 s -> regex_matches (Regex.Alt r1 r2) s
| matches_star_nil r : regex_matches (Regex.Star r) ""
| matches_star_cons r s1 s2 :
    regex_matches r s1 -> regex_matches (Regex.Star r) s2 ->
    regex_matches (Regex.Star r) (s1 ++ s2).

(** Every character of the string is in the class. *)
Fixpoint allChars (f : ascii -> bool) (s : string) : bool :=
  match s with
  | EmptyString => true
  | String c r => f c && allChars f r
  end.

(** The record that a successful filing stores. *)
Definition filedRecord (uuid now : text) (payload : AdoptionPayload) (user : User) (pet : Pet)
  : AdoptionRecords :=
  mkAdoptionRecords uuid (AdoptionPayload_userId payload) (AdoptionPayload_petId payload)
    (Pet_name pet) (User_name user) (User_phoneNumber user) (User_address user)
    (AdoptionPayload_reasonForAdoption payload) now "pending".

(** The store updates that a call can make, with every record written
    under the key it was read from. *)
Inductive transition (s : State) : State -> Prop :=
| transition_none : transition s s
| transition_addUser caller uuid payload :
    validateUserPayload payload = true -> unused uuid s ->
    transition s
      (mkState (<[uuid := newUser uuid caller payload]> (UsersStorage s))
         (PetsStorage s) (SheltersStorage s) (AdoptionsStorage s))
| transition_addPet uuid payload shelter :
    validatePetPayload payload = true -> unused uuid s ->
    SheltersStorage s !! PetPayload_shelterId payload = Some shelter ->
    transition s
      (mkState (UsersStorage s) (<[uuid := newPet uuid payload]> (PetsStorage s))
         (<[PetPayload_shelterId payload := Shelter_push_pets shelter uuid]> (SheltersStorage s))
         (AdoptionsStorage s))
| transition_addPetImage payload pet :
    PetsStorage s !! PetImage_petId payload = Some pet ->
    transition s
      (mkState (UsersStorage s)
         (<[PetImage_petId payload := Pet_set_petImage pet (PetImage_petImage payload)]>
            (PetsStorage s))
         (SheltersStorage s) (AdoptionsStorage s))
| transition_updatePetInfo payload pet :
    PetsStorage s !! UpdatePetPayload_petId payload = Some pet ->
    validatePetPayload (Pet_fields (Pet_merge pet payload)) = true ->
    transition s
      (mkState (UsersStorage s)
         (<[UpdatePetPayload_petId payload := Pet_merge pet payload]> (PetsStorage s))
         (SheltersStorage s) (AdoptionsStorage s))
| transition_createShelter caller uuid payload :
    validateShelterPayload payload = true -> unused uuid s ->
    transition s
      (mkState (UsersStorage s) (PetsStorage s)
         (<[uuid := newShelter uuid caller payload]> (SheltersStorage s)) (AdoptionsStorage s))
| transition_updateShelterInfo payload shelter :
    SheltersStorage s !! UpdateShelterPayload_id payload = Some shelter ->
    validateShelterPayload (Shelter_fields (Shelter_merge shelter payload)) = true ->
    transition s
      (mkState (UsersStorage s) (PetsStorage s)
         (<[UpdateShelterPayload_id payload := Shelter_merge shelter payload]> (SheltersStorage s))
         (AdoptionsStorage s))
| transition_fileForAdoption uuid now payload user pet :
    validateAdoptionPayload payload = true -> unused uuid s ->
    UsersStorage s !! AdoptionPayload_userId payload = Some user ->
    PetsStorage s !! AdoptionPayload_petId payload = Some pet ->
    Pet_status pet = "notAdopted" ->
    transition s
      (mkState
         (<[AdoptionPayload_userId payload := User_push_application user uuid]> (UsersStorage s))
         (PetsStorage s) (SheltersStorage s)
         (<[uuid := filedRecord uuid now payload user pet]> (AdoptionsStorage s)))
| transition_completeAdoption adoptionId adoption pet :
    AdoptionsStorage s !! adoptionId = Some adoption ->
    AdoptionRecords_status adoption = "pending" ->
    PetsStorage s !! AdoptionRecords_petId adoption = Some pet ->
    transition s
      (mkState (UsersStorage s)
         (<[AdoptionRecords_petId adoption := Pet_set_status pet "adopted"]> (PetsStorage s))
         (SheltersStorage s)
         (<[adoptionId := AdoptionRecords_set_status adoption "completed"]> (AdoptionsStorage s)))
| transition_failAdoption adoptionId adoption :
    AdoptionsStorage s !! adoptionId = Some adoption ->
    AdoptionRecords_status adoption = "pending" ->
    transition s
      (mkState (UsersStorage s) (PetsStorage s) (SheltersStorage s)
         (<[adoptionId := AdoptionRecords_set_status adoption "failed"]> (AdoptionsStorage s))).

(** Write a state built by the setters as its four stores. *)
Ltac flat := unfold set_Users, set_Pets, set_Shelters, set_Adoptions; simpl.

(** The fields of a stored user that [validateUserPayload] reads. *)
Definition User_fields (u : User) : UserPayload :=
  mkUserPayload (User_name u) (User_phoneNumber u) (User_email u) (User_address u).

(** The statuses are those the methods write. *)
Definition statuses_ok (s : State) : Prop :=
  (forall k pet, PetsStorage s !! k = Some pet ->
     Pet_status pet = "notAdopted" \/ Pet_status pet = "adopted") /\
  (forall k r, AdoptionsStorage s !! k = Some r ->
     AdoptionRecords_status r = "pending" \/ AdoptionRecords_status r = "completed" \/
     AdoptionRecords_status r = "failed").

(** The users' application lists and the adoption records agree. *)
Definition applications_ok (s : State) : Prop :=
  (forall k user a,
     UsersStorage s !! k = Some user -> a ∈ User_application user ->
     exists r, AdoptionsStorage s !! a = Some r /\ AdoptionRecords_userId r = k) /\
  (forall a r,
     AdoptionsStorage s !! a = Some r ->
     exists user, UsersStorage s !! AdoptionRecords_userId r = Some user /\
                  a ∈ User_application user).

(** An adoption record names an existing user and pet, and its copies of
    their fields are current. *)
Definition snapshots_ok (s : State) : Prop :=
  forall a r,
    AdoptionsStorage s !! a = Some r ->
    exists user pet,
      UsersStorage s !! AdoptionRecords_userId r = Some user /\
      PetsStorage s !! AdoptionRecords_petId r = Some pet /\
      AdoptionRecords_userName r = User_name user /\
      AdoptionRecords_userPhoneNumber r = User_phoneNumber user /\
      AdoptionRecords_address r = User_address user /\
      AdoptionRecords_petName r = Pet_name pet.

(** Each pet is listed by the shelter it names. *)
Definition pets_sheltered (s : State) : Prop :=
  forall k pet,
    PetsStorage s !! k = Some pet ->
    exists shelter, SheltersStorage s !! Pet_shelterId pet = Some shelter /\
                    k ∈ Shelter_pets shelter.

(** No application list and no pet list holds an id twice. *)
Definition lists_nodup (s : State) : Prop :=
  (forall k user, UsersStorage s !! k = Some user -> NoDup (User_application user)) /\
  (forall k shelter, SheltersStorage s !! k = Some shelter -> NoDup (Shelter_pets shelter)).

(** A completed record's pet is adopted, and an adopted pet has a
    completed record. *)
Definition outcomes_ok (s : State) : Prop :=
  (forall a r,
     AdoptionsStorage s !! a = Some r -> AdoptionRecords_status r = "completed" ->
     Pet_status <$> PetsStorage s !! AdoptionRecords_petId r = Some "adopted") /\
  (forall k pet,
     PetsStorage s !! k = Some pet -> Pet_status pet = "adopted" ->
     exists a r, AdoptionsStorage s !! a = Some r /\ AdoptionRecords_petId r = k /\
                 AdoptionRecords_status r = "completed").

(** Stored users and shelters pass their validators; a stored pet passes
    once its image is not blank. *)
Definition stored_valid (s : State) : Prop :=
  (forall k user, UsersStorage s !! k = Some user ->
     validateUserPayload (User_fields user) = true) /\
  (forall k shelter, SheltersStorage s !! k = Some shelter ->
     validateShelterPayload (Shelter_fields shelter) = true) /\
  (forall k pet image, PetsStorage s !! k = Some pet -> Str.nonBlank image = true ->
     validatePetPayload (Pet_fields (Pet_set_petImage pet image)) = true).

(** Split a lookup in an updated store into the written key and the others. *)
Ltac lookups :=
  repeat match goal with
    | H : <[_ := _]> _ !! _ = Some _ |- _ =>
        apply lookup_insert_Some in H as [[<- <-]|[? H]]
    end.

(** What calls may change in a stored record.  A user keeps its identity
    and contact fields; its application list grows at the end. *)
Definition User_extends (u u' : User) : Prop :=
  User_id u' = User_id u /\ User_principal u' = User_principal u /\
  User_name u' = User_name u /\ User_phoneNumber u' = User_phoneNumber u /\
  User_email u' = User_email u /\ User_address u' = User_address u /\
  User_application u `prefix_of` User_application u'.

(** A pet keeps its identity; its status stays or becomes ["adopted"]. *)
Definition Pet_extends (p p' : Pet) : Prop :=
  Pet_id p' = Pet_id p /\ Pet_name p' = Pet_name p /\ Pet_species p' = Pet_species p /\
  Pet_breed p' = Pet_breed p /\ Pet_gender p' = Pet_gender p /\
  Pet_description p' = Pet_description p /\ Pet_shelterId p' = Pet_shelterId p /\
  (Pet_status p' = Pet_status p \/ Pet_status p' = "adopted").

(** A shelter keeps its identity; its pet list grows at the end. *)
Definition Shelter_extends (sh sh' : Shelter) : Prop :=
  Shelter_id sh' = Shelter_id sh /\ Shelter_principal sh' = Shelter_principal sh /\
  Shelter_name sh' = Shelter_name sh /\ Shelter_location sh' = Shelter_location sh /\
  Shelter_pets sh `prefix_of` Shelter_pets sh'.

(** An adoption record stays, or leaves ["pending"] by its status alone. *)
Definition AdoptionRecords_extends (r r' : AdoptionRecords) : Prop :=
  r' = r \/
  (AdoptionRecords_status r = "pending" /\
   (r' = AdoptionRecords_set_status r "completed" \/ r' = AdoptionRecords_set_status r "failed")).

(** ** Proof tools *)

(** Decide a closed, decidable proposition by evaluation. *)
Ltac by_evaluation := apply (bool_decide_unpack _); vm_compute; exact I.

(** Name the branch taken by every test of a method body. *)
Ltac branches :=
  repeat match goal with
    | |- context [negb (bool_decide ?P)] => destruct (decide P);
        [rewrite (bool_decide_eq_true_2 P) by assumption
        |rewrite (bool_decide_eq_false_2 P) by assumption]; simpl
    | |- context [negb ?b] => destruct b eqn:?; simpl
    | |- context [match ?m !! ?k with _ => _ end] => destruct (m !! k) eqn:?; simpl
    end.

Create HintDb registry.

(** Split a goal on the four stores and close what the hints close. *)
Ltac stores := unfold wf in *; simpl; split_and!; auto with registry.

Lemma keyed_lookup {V : Type} (id : V -> text) (m : gmap text V) k v :
  keyed id m -> m !! k = Some v -> id v = k.
Proof. intros Hm Hk. exact (map_Forall_lookup_1 _ _ _ _ Hm Hk). Qed.

Lemma keyed_insert {V : Type} (id : V -> text) (m : gmap text V) k v :
  keyed id m -> id v = k -> keyed id (<[k := v]> m).
Proof. intros Hm Hk. apply map_Forall_insert_2; assumption. Qed.

Lemma keyed_empty {V : Type} (id : V -> text) : keyed id (∅ : gmap text V).
Proof. apply map_Forall_empty. Qed.

#[local] Hint Resolve keyed_insert keyed_empty : registry.

Lemma shelter_pets_ok_lookup s k shelter petId :
  shelter_pets_ok s -> SheltersStorage s !! k = Some shelter ->
  petId ∈ Shelter_pets shelter ->
  exists pet, PetsStorage s !! petId = Some pet /\ Pet_shelterId pet = Shelter_id shelter.
Proof.
  intros Hok Hk Hin.
  pose proof (map_Forall_lookup_1 _ _ _ _ Hok Hk) as Hall. simpl in Hall.
  rewrite Forall_forall in Hall. specialize (Hall _ Hin).
  destruct (PetsStorage s !! petId) as [pet|]; simpl in Hall; [|discriminate].
  exists pet. split; congruence.
Qed.

(** *** Every call keeps each record under its own id *)

Lemma exec_wf c s : wf s -> wf (exec c s).2.
Proof.
  intros (Hu & Hp & Hs & Ha).
  destruct c; simpl; unfold reply; simpl;
    try (stores; fail).
  - unfold addUser. branches; stores.
  - unfold addPet. branches; stores.
  - unfold addPetImage. branches; stores.
  - unfold updatePetInfo. branches; stores.
  - unfold createShelter. branches; stores.
  - unfold updateShelterInfo.
    destruct (SheltersStorage s !! UpdateShelterPayload_id payload) as [shelter|] eqn:Hget;
      simpl; [|stores].
    branches; stores.
    apply keyed_insert; [assumption|]. simpl.
    symmetry. eapply keyed_lookup; eassumption.
  - unfold fileForAdoption. branches; stores.
  - unfold updateAdoptionRecord. branches; stores.
  - unfold completeAdoption.
    destruct (AdoptionsStorage s !! adoptionId) as [adoption|] eqn:Hget;
      simpl; [|stores].
    branches; stores.
    apply keyed_insert; [assumption|]. simpl. eapply keyed_lookup; eassumption.
  - unfold failAdoption.
    destruct (AdoptionsStorage s !! adoptionId) as [adoption|] eqn:Hget;
      simpl; [|stores].
    branches; stores.
    apply keyed_insert; [assumption|]. simpl. eapply keyed_lookup; eassumption.
Qed.

Lemma init_wf : wf init.
Proof. stores. Qed.

Lemma reachable_wf s : reachable s -> wf s.
Proof. induction 1; [apply init_wf | apply exec_wf; assumption]. Qed.

Lemma reachable_run cs s : reachable s -> trace_fresh cs s -> reachable (run cs s).
Proof.
  revert s. induction cs as [|c cs IH]; intros s Hs Hfresh; [exact Hs|].
  destruct Hfresh as [Hc Hcs]. apply (IH (exec c s).2); [|exact Hcs].
  apply reachable_exec; assumption.
Qed.

(** *** The shelter lists refer to pets of the shelter *)

Lemma shelter_pets_ok_refs s :
  shelter_pets_ok s <-> refs_ok (PetsStorage s) (SheltersStorage s).
Proof.
  split.
  - intros Hok k shelter petId. apply shelter_pets_ok_lookup. exact Hok.
  - intros Hrefs. apply map_Forall_lookup_2. intros k shelter Hk.
    apply Forall_forall. intros petId Hin.
    destruct (Hrefs k shelter petId Hk Hin) as (pet & -> & <-). reflexivity.
Qed.

Lemma refs_ok_pet_update pets shelters k pet pet' :
  refs_ok pets shelters -> pets !! k = Some pet ->
  Pet_shelterId pet' = Pet_shelterId pet ->
  refs_ok (<[k := pet']> pets) shelters.
Proof.
  intros Hrefs Hk Hsame j shelter petId Hj Hin.
  destruct (Hrefs j shelter petId Hj Hin) as (p & Hp & Hsh).
  destruct (decide (k = petId)) as [->|Hne].
  - exists pet'. rewrite lookup_insert_eq. split; [reflexivity|]. congruence.
  - exists p. rewrite lookup_insert_ne by assumption. split; assumption.
Qed.

Lemma refs_ok_shelter_update pets shelters k shelter shelter' :
  refs_ok pets shelters -> shelters !! k = Some shelter ->
  Shelter_id shelter' = Shelter_id shelter ->
  Shelter_pets shelter' = Shelter_pets shelter ->
  refs_ok pets (<[k := shelter']> shelters).
Proof.
  intros Hrefs Hk Hid Hpets j sh petId Hj Hin.
  destruct (decide (k = j)) as [->|Hne].
  - rewrite lookup_insert_eq in Hj. injection Hj as <-.
    rewrite Hid. rewrite Hpets in Hin. eapply Hrefs; eassumption.
  - rewrite lookup_insert_ne in Hj by assumption. eapply Hrefs; eassumption.
Qed.

Lemma refs_ok_new_shelter pets shelters k shelter :
  refs_ok pets shelters -> Shelter_pets shelter = [] ->
  refs_ok pets (<[k := shelter]> shelters).
Proof.
  intros Hrefs Hnil j sh petId Hj Hin.
  destruct (decide (k = j)) as [->|Hne].
  - rewrite lookup_insert_eq in Hj. injection Hj as <-.
    rewrite Hnil in Hin. inversion Hin.
  - rewrite lookup_insert_ne in Hj by assumption. eapply Hrefs; eassumption.
Qed.

(** A pet list never holds an identifier that is not the key of a pet. *)
Lemma refs_ok_not_in pets shelters k shelter petId :
  refs_ok pets shelters -> shelters !! k = Some shelter ->
  pets !! petId = None -> petId ∉ Shelter_pets shelter.
Proof.
  intros Hrefs Hk Hnone Hin.
  destruct (Hrefs k shelter petId Hk Hin) as (p & Hp & _). congruence.
Qed.

Lemma refs_ok_add_pet pets shelters k shelter petId pet :
  refs_ok pets shelters -> shelters !! k = Some shelter ->
  pets !! petId = None -> Pet_shelterId pet = Shelter_id shelter ->
  refs_ok (<[petId := pet]> pets)
    (<[Shelter_id shelter := Shelter_push_pets shelter petId]> shelters).
Proof.
  intros Hrefs Hk Hnone Hsh j sh pid Hj Hin.
  assert (Hold : forall sh0 j0, shelters !! j0 = Some sh0 -> pid ∈ Shelter_pets sh0 ->
            exists p, <[petId := pet]> pets !! pid = Some p /\ Pet_shelterId p = Shelter_id sh0).
  { intros sh0 j0 Hj0 Hin0.
    destruct (Hrefs j0 sh0 pid Hj0 Hin0) as (p & Hp & Hp').
    exists p. split; [|assumption].
    rewrite lookup_insert_ne; [assumption|]. intros ->. congruence. }
  destruct (decide (Shelter_id shelter = j)) as [<-|Hne].
  - rewrite lookup_insert_eq in Hj. injection Hj as <-. simpl in *.
    apply elem_of_app in Hin as [Hin|Hin].
    + eapply Hold; eassumption.
    + apply list_elem_of_singleton in Hin as ->.
      exists pet. rewrite lookup_insert_eq. split; [reflexivity|assumption].
  - rewrite lookup_insert_ne in Hj by assumption. eapply Hold; eassumption.
Qed.

Lemma exec_shelter_pets_ok c s :
  wf s -> shelter_pets_ok s -> uuid_fresh c s -> shelter_pets_ok (exec c s).2.
Proof.
  intros (Hu & Hp & Hs & Ha) Hok Hfresh.
  apply shelter_pets_ok_refs. apply shelter_pets_ok_refs in Hok.
  destruct c; simpl; unfold reply; simpl; try assumption.
  - unfold addUser. branches; assumption.
  - unfold addPet.
    destruct (negb (validatePetPayload payload)); simpl; [assumption|].
    destruct (SheltersStorage s !! PetPayload_shelterId payload) as [shelter|] eqn:Hget;
      simpl; [|assumption].
    destruct Hfresh as (_ & Hnone & _).
    eapply refs_ok_add_pet; [eassumption..|]. simpl.
    symmetry. eapply keyed_lookup; eassumption.
  - unfold addPetImage.
    destruct (PetsStorage s !! PetImage_petId payload) as [pet|] eqn:Hget;
      simpl; [|assumption].
    rewrite (keyed_lookup _ _ _ _ Hp Hget).
    eapply refs_ok_pet_update; [eassumption..|reflexivity].
  - unfold updatePetInfo.
    destruct (PetsStorage s !! UpdatePetPayload_petId payload) as [pet|] eqn:Hget;
      simpl; [|assumption].
    branches; [|assumption].
    rewrite (keyed_lookup _ _ _ _ Hp Hget).
    eapply refs_ok_pet_update; [eassumption..|reflexivity].
  - unfold createShelter. branches; [|assumption].
    apply refs_ok_new_shelter; [assumption|reflexivity].
  - unfold updateShelterInfo.
    destruct (SheltersStorage s !! UpdateShelterPayload_id payload) as [shelter|] eqn:Hget;
      simpl; [|assumption].
    branches; [|assumption].
    pose proof (keyed_lookup _ _ _ _ Hs Hget) as Hid. rewrite Hid.
    eapply refs_ok_shelter_update; [eassumption..| |reflexivity]. simpl. congruence.
  - unfold fileForAdoption. branches; assumption.
  - unfold updateAdoptionRecord. branches; assumption.
  - unfold completeAdoption.
    destruct (AdoptionsStorage s !! adoptionId) as [adoption|]; simpl; [|assumption].
    destruct (negb _); simpl; [assumption|].
    destruct (PetsStorage s !! AdoptionRecords_petId adoption) as [pet|] eqn:Hget;
      simpl; [|assumption].
    rewrite (keyed_lookup _ _ _ _ Hp Hget).
    eapply refs_ok_pet_update; [eassumption..|reflexivity].
  - unfold failAdoption. branches; assumption.
Qed.

Lemma reachable_shelter_pets_ok s : reachable s -> shelter_pets_ok s.
Proof.
  induction 1 as [|c s Hs IH Hfresh].
  - apply map_Forall_empty.
  - apply exec_shelter_pets_ok; [apply reachable_wf| |]; assumption.
Qed.

(** ** The validators on sample inputs *)

Example isValidEmail_samples :
  isValidEmail "ann@example.org" = true /\
  isValidEmail "a.b@c.d.e" = true /\
  isValidEmail "ann@example" = false /\
  isValidEmail "ann@.org" = false /\
  isValidEmail "ann@example." = false /\
  isValidEmail "ann smith@example.org" = false /\
  isValidEmail "ann@@example.org" = false /\
  isValidEmail "" = false.
Proof. split_and!; reflexivity. Qed.

Example isValidPhoneNumber_samples :
  isValidPhoneNumber "0712345678" = true /\
  isValidPhoneNumber "071234567890123" = true /\
  isValidPhoneNumber "071234567" = false /\
  isValidPhoneNumber "0712345678901234" = false /\
  isValidPhoneNumber "0712-345678" = false /\
  isValidPhoneNumber "+254712345678" = false.
Proof. split_and!; reflexivity. Qed.

Example trim_samples :
  Str.trim "  12 Hill Road  " = "12 Hill Road" /\
  Str.trim "   " = "" /\
  Str.nonBlank "   " = false /\
  Str.nonBlank " x " = true /\
  Str.toLowerCase "DoG" = "dog".
Proof. split_and!; reflexivity. Qed.

(** ** Lower case and the values of a store *)

Lemma lowerChar_idem (c : ascii) : Str.lowerChar (Str.lowerChar c) = Str.lowerChar c.
Proof. destruct c as [[] [] [] [] [] [] [] []]; reflexivity. Qed.

Lemma upperOf_lowerChar (c : ascii) : Str.lowerChar c <> c -> upperOf (Str.lowerChar c) = c.
Proof.
  destruct c as [[] [] [] [] [] [] [] []]; intros Hne;
    solve [reflexivity | exfalso; apply Hne; reflexivity].
Qed.

Lemma lowerChar_eq_iff (c d : ascii) :
  Str.lowerChar c = Str.lowerChar d <-> sameLetter c d.
Proof.
  split.
  - intros Heq.
    destruct (decide (Str.lowerChar c = c)) as [Hc|Hc].
    { right. right. congruence. }
    destruct (decide (Str.lowerChar d = d)) as [Hd|Hd].
    { right. left. congruence. }
    left. rewrite <- (upperOf_lowerChar c Hc), <- (upperOf_lowerChar d Hd). congruence.
  - intros [->|[<-|<-]]; [reflexivity| |]; rewrite lowerChar_idem; reflexivity.
Qed.

Lemma toLowerCase_eq_iff (a b : string) :
  Str.toLowerCase a = Str.toLowerCase b <-> equalIgnoringCase a b.
Proof.
  revert b. induction a as [|c a IH]; intros [|d b]; simpl; try (split; [discriminate|tauto]).
  - tauto.
  - rewrite <- IH, <- lowerChar_eq_iff. split.
    + intros Heq. injection Heq as Hc Ha. auto.
    + intros [-> ->]. reflexivity.
Qed.

Lemma toLowerCase_length (a : string) : String.length (Str.toLowerCase a) = String.length a.
Proof. induction a as [|c a IH]; simpl; congruence. Qed.

Lemma elem_of_values {V : Type} (m : gmap text V) (v : V) :
  v ∈ values m <-> exists k, m !! k = Some v.
Proof.
  unfold values. rewrite list_elem_of_fmap. split.
  - intros ([k v'] & -> & Hin). exists k. apply elem_of_map_to_list. exact Hin.
  - intros [k Hk]. exists (k, v). split; [reflexivity|]. apply elem_of_map_to_list. exact Hk.
Qed.

(** ** What each method does, branch by branch *)

Lemma nonBlank_trim_empty (s : string) : Str.trim s = "" -> Str.nonBlank s = false.
Proof. unfold Str.nonBlank. intros ->. reflexivity. Qed.

Lemma fileForAdoption_available uuid now payload s user pet :
  validateAdoptionPayload payload = true ->
  UsersStorage s !! AdoptionPayload_userId payload = Some user ->
  PetsStorage s !! AdoptionPayload_petId payload = Some pet ->
  Pet_status pet = "notAdopted" ->
  let record :=
    mkAdoptionRecords uuid (User_id user) (Pet_id pet) (Pet_name pet) (User_name user)
      (User_phoneNumber user) (User_address user)
      (AdoptionPayload_reasonForAdoption payload) now "pending" in
  fileForAdoption uuid now payload s =
    (Ok record,
     mkState (<[User_id user := User_push_application user uuid]> (UsersStorage s))
       (PetsStorage s) (SheltersStorage s) (<[uuid := record]> (AdoptionsStorage s))).
Proof.
  intros Hvalid Huser Hpet Hstatus. unfold fileForAdoption.
  rewrite Hvalid, Huser, Hpet. simpl.
  rewrite (bool_decide_eq_true_2 _ Hstatus). reflexivity.
Qed.

Lemma fileForAdoption_unavailable uuid now payload s user pet :
  validateAdoptionPayload payload = true ->
  UsersStorage s !! AdoptionPayload_userId payload = Some user ->
  PetsStorage s !! AdoptionPayload_petId payload = Some pet ->
  Pet_status pet <> "notAdopted" ->
  fileForAdoption uuid now payload s =
    (Err (InvalidPayload "Pet is not available for adoption."), s).
Proof.
  intros Hvalid Huser Hpet Hstatus. unfold fileForAdoption.
  rewrite Hvalid, Huser, Hpet. simpl.
  rewrite (bool_decide_eq_false_2 _ Hstatus). reflexivity.
Qed.

(** A filing that succeeds passed every test of the method. *)
Lemma fileForAdoption_Ok_inv uuid now payload s record s' :
  fileForAdoption uuid now payload s = (Ok record, s') ->
  validateAdoptionPayload payload = true /\
  exists user pet,
    UsersStorage s !! AdoptionPayload_userId payload = Some user /\
    PetsStorage s !! AdoptionPayload_petId payload = Some pet /\
    Pet_status pet = "notAdopted".
Proof.
  unfold fileForAdoption.
  destruct (validateAdoptionPayload payload); simpl; [|discriminate].
  destruct (UsersStorage s !! AdoptionPayload_userId payload) as [user|]; [|discriminate].
  destruct (PetsStorage s !! AdoptionPayload_petId payload) as [pet|]; [|discriminate].
  destruct (decide (Pet_status pet = "notAdopted")) as [Hst|Hst].
  - intros _. split; [reflexivity|]. exists user, pet. auto.
  - rewrite (bool_decide_eq_false_2 _ Hst). discriminate.
Qed.

Lemma completeAdoption_pending adoptionId s adoption pet :
  AdoptionsStorage s !! adoptionId = Some adoption ->
  AdoptionRecords_status adoption = "pending" ->
  PetsStorage s !! AdoptionRecords_petId adoption = Some pet ->
  completeAdoption adoptionId s =
    (Ok (AdoptionRecords_set_status adoption "completed"),
     mkState (UsersStorage s) (<[Pet_id pet := Pet_set_status pet "adopted"]> (PetsStorage s))
       (SheltersStorage s)
       (<[adoptionId := AdoptionRecords_set_status adoption "completed"]> (AdoptionsStorage s))).
Proof.
  intros Hget Hstatus Hpet. unfold completeAdoption.
  rewrite Hget, (bool_decide_eq_true_2 _ Hstatus). simpl. rewrite Hpet. reflexivity.
Qed.

Lemma completeAdoption_not_pending adoptionId s adoption :
  AdoptionsStorage s !! adoptionId = Some adoption ->
  AdoptionRecords_status adoption <> "pending" ->
  completeAdoption adoptionId s =
    (Err (InvalidPayload "Only pending adoptions can be completed."), s).
Proof.
  intros Hget Hstatus. unfold completeAdoption.
  rewrite Hget, (bool_decide_eq_false_2 _ Hstatus). reflexivity.
Qed.

Lemma completeAdoption_Ok_inv adoptionId s record s' :
  completeAdoption adoptionId s = (Ok record, s') ->
  exists adoption pet,
    AdoptionsStorage s !! adoptionId = Some adoption /\
    AdoptionRecords_status adoption = "pending" /\
    PetsStorage s !! AdoptionRecords_petId adoption = Some pet.
Proof.
  unfold completeAdoption.
  destruct (AdoptionsStorage s !! adoptionId) as [adoption|]; [|discriminate].
  destruct (decide (AdoptionRecords_status adoption = "pending")) as [Hst|Hst].
  - destruct (PetsStorage s !! AdoptionRecords_petId adoption) as [pet|] eqn:Hpet.
    + intros _. exists adoption, pet. auto.
    + rewrite (bool_decide_eq_true_2 _ Hst). simpl. discriminate.
  - rewrite (bool_decide_eq_false_2 _ Hst). discriminate.
Qed.

Lemma failAdoption_pending adoptionId s adoption :
  AdoptionsStorage s !! adoptionId = Some adoption ->
  AdoptionRecords_status adoption = "pending" ->
  failAdoption adoptionId s =
    (Ok (AdoptionRecords_set_status adoption "failed"),
     mkState (UsersStorage s) (PetsStorage s) (SheltersStorage s)
       (<[adoptionId := AdoptionRecords_set_status adoption "failed"]> (AdoptionsStorage s))).
Proof.
  intros Hget Hstatus. unfold failAdoption.
  rewrite Hget, (bool_decide_eq_true_2 _ Hstatus). reflexivity.
Qed.

Lemma failAdoption_not_pending adoptionId s adoption :
  AdoptionsStorage s !! adoptionId = Some adoption ->
  AdoptionRecords_status adoption <> "pending" ->
  failAdoption adoptionId s =
    (Err (InvalidPayload "Only pending adoptions can be failed."), s).
Proof.
  intros Hget Hstatus. unfold failAdoption.
  rewrite Hget, (bool_decide_eq_false_2 _ Hstatus). reflexivity.
Qed.

Lemma failAdoption_absent adoptionId s :
  AdoptionsStorage s !! adoptionId = None ->
  failAdoption adoptionId s = (Err (NotFound "Adoption record not found."), s).
Proof. intros Hget. unfold failAdoption. rewrite Hget. reflexivity. Qed.

(** What the design of [failAdoption] gives: a pending record becomes
    failed, no pet changes, and a pet that is still ["notAdopted"] can be
    filed for again. *)
Lemma failAdoption_then_file adoptionId s adoption uuid now payload user pet :
  AdoptionsStorage s !! adoptionId = Some adoption ->
  AdoptionRecords_status adoption = "pending" ->
  validateAdoptionPayload payload = true ->
  UsersStorage s !! AdoptionPayload_userId payload = Some user ->
  PetsStorage s !! AdoptionPayload_petId payload = Some pet ->
  Pet_status pet = "notAdopted" ->
  exists failed s1 record s2,
    failAdoption adoptionId s = (Ok failed, s1) /\
    AdoptionRecords_status failed = "failed" /\
    AdoptionsStorage s1 !! adoptionId = Some failed /\
    PetsStorage s1 = PetsStorage s /\
    fileForAdoption uuid now payload s1 = (Ok record, s2) /\
    AdoptionRecords_status record = "pending".
Proof.
  intros Hget Hpending Hvalid Huser Hpet Hstatus.
  rewrite (failAdoption_pending _ _ _ Hget Hpending).
  set (s1 := mkState _ _ _ _).
  pose proof (fileForAdoption_available uuid now payload s1 user pet
                Hvalid Huser Hpet Hstatus) as Hfile.
  simpl in Hfile.
  eexists _, s1, _, _. split; [reflexivity|]. simpl.
  split; [reflexivity|]. split; [apply lookup_insert_eq|]. split; [reflexivity|].
  split; [exact Hfile|reflexivity].
Qed.

(** A filing that succeeds can be repeated: the pet is still
    ["notAdopted"], so the same payload is accepted again under another
    generated id, and both records are pending for the same pet. *)
Lemma fileForAdoption_twice uuid1 now1 uuid2 now2 payload s r1 s1 :
  wf s ->
  fileForAdoption uuid1 now1 payload s = (Ok r1, s1) ->
  uuid1 <> uuid2 ->
  exists r2 s2,
    fileForAdoption uuid2 now2 payload s1 = (Ok r2, s2) /\
    AdoptionsStorage s2 !! uuid1 = Some r1 /\
    AdoptionsStorage s2 !! uuid2 = Some r2 /\
    AdoptionRecords_status r1 = "pending" /\
    AdoptionRecords_status r2 = "pending" /\
    AdoptionRecords_petId r1 = AdoptionRecords_petId r2.
Proof.
  intros (Hu & _) Hrun Hne.
  destruct (fileForAdoption_Ok_inv _ _ _ _ _ _ Hrun)
    as (Hvalid & user & pet & Huser & Hpet & Hstatus).
  pose proof (fileForAdoption_available uuid1 now1 payload s user pet
                Hvalid Huser Hpet Hstatus) as Hfirst.
  simpl in Hfirst. rewrite Hfirst in Hrun. injection Hrun as <- <-.
  set (s1 := mkState _ _ _ _).
  assert (Huser1 : UsersStorage s1 !! AdoptionPayload_userId payload =
                     Some (User_push_application user uuid1)).
  { simpl. rewrite (keyed_lookup _ _ _ _ Hu Huser). apply lookup_insert_eq. }
  pose proof (fileForAdoption_available uuid2 now2 payload s1 _ pet
                Hvalid Huser1 Hpet Hstatus) as Hsecond.
  simpl in Hsecond.
  eexists _, _. split; [exact Hsecond|]. simpl. split_and!; try reflexivity.
  - rewrite lookup_insert_ne by congruence. apply lookup_insert_eq.
  - apply lookup_insert_eq.
Qed.

(** ** The properties of the specification *)

(** C1. Stated by the specification: in every reachable state each pet
    has at most one pending adoption record.  [fileForAdoption] tests
    [pet.status] (its comment reads "already adopted or pending"), but
    filing leaves the pet ["notAdopted"], so a second filing for the same
    pet passes the test: after the sample history the records ["a-1"] and
    ["a-2"] are both pending for the pet ["p-1"], in a reachable state. *)
Theorem filing_twice_leaves_two_pending :
  reachable Sample.filedTwice /\
  AdoptionsStorage Sample.filedTwice !! "a-1" =
    Some (mkAdoptionRecords "a-1" "u-1" "p-1" "Rex" "Ann" "0798765432" "12 Hill Road"
            "company" "2024-01-01T00:00:00.000Z" "pending") /\
  AdoptionsStorage Sample.filedTwice !! "a-2" =
    Some (mkAdoptionRecords "a-2" "u-1" "p-1" "Rex" "Ann" "0798765432" "12 Hill Road"
            "company" "2024-01-02T00:00:00.000Z" "pending") /\
  ~ one_pending_per_pet Sample.filedTwice.
Proof.
  assert (H1 : AdoptionsStorage Sample.filedTwice !! "a-1" =
    Some (mkAdoptionRecords "a-1" "u-1" "p-1" "Rex" "Ann" "0798765432" "12 Hill Road"
            "company" "2024-01-01T00:00:00.000Z" "pending")) by (vm_compute; reflexivity).
  assert (H2 : AdoptionsStorage Sample.filedTwice !! "a-2" =
    Some (mkAdoptionRecords "a-2" "u-1" "p-1" "Rex" "Ann" "0798765432" "12 Hill Road"
            "company" "2024-01-02T00:00:00.000Z" "pending")) by (vm_compute; reflexivity).
  split_and!; [|exact H1|exact H2|].
  - change Sample.filedTwice
      with (run (Sample.setup ++ [Sample.file1; Sample.file2]) init).
    apply reachable_run; [apply reachable_init|by_evaluation].
  - intros Hone.
    assert (Heq : "a-1" = "a-2"); [|discriminate Heq].
    apply (Hone "p-1" "a-1" "a-2" _ _ H1 H2); reflexivity.
Qed.

(** C2. A call that replies with an error ([NotFound], [InvalidPayload] or
    [ValidationError]) leaves the four stores as they were. *)
Theorem error_reply_keeps_stores (c : Call) (s : State) (e : Error) :
  reply_error (exec c s).1 = Some e -> (exec c s).2 = s.
Proof.
  destruct c; simpl; unfold reply; simpl; try reflexivity.
  - unfold addUser. branches; [discriminate|reflexivity].
  - unfold addPet. branches; try reflexivity. discriminate.
  - unfold addPetImage. branches; [discriminate|reflexivity].
  - unfold updatePetInfo. branches; try reflexivity. discriminate.
  - unfold createShelter. branches; [discriminate|reflexivity].
  - unfold updateShelterInfo. branches; try reflexivity. discriminate.
  - unfold fileForAdoption. branches; try reflexivity. discriminate.
  - unfold updateAdoptionRecord.
    destruct (AdoptionsStorage s !! UpdateAdoption_adoptionId payload); [|reflexivity].
    destruct (_ || _); reflexivity.
  - unfold completeAdoption. branches; try reflexivity. discriminate.
  - unfold failAdoption. branches; try reflexivity. discriminate.
Qed.

Lemma error_reply_keeps_stores_witness :
  let c := CallAddPet "p-2"
             (mkPetPayload "Tom" "Cat" "Siamese" "male" "2" "tom.png" "shy" "healthy" "s-404") in
  reply_error (exec c Sample.registered).1 = Some (NotFound "Shelter with ID s-404 not found.") /\
  (exec c Sample.registered).2 = Sample.registered.
Proof.
  intros c. split.
  - vm_compute. reflexivity.
  - apply (error_reply_keeps_stores c Sample.registered
             (NotFound "Shelter with ID s-404 not found.")).
    vm_compute. reflexivity.
Defined.

(** C3, as written, fails: a payload whose ids resolve, for a pet that is
    ["notAdopted"], is rejected with [ValidationError] when it does not pass
    [validateAdoptionPayload] (here the phone number ["n/a"]). *)
Lemma fileForAdoption_resolving_but_invalid :
  is_Some (UsersStorage Sample.registered !! AdoptionPayload_userId Sample.badAdoptionPayload) /\
  Pet_status <$> PetsStorage Sample.registered !! AdoptionPayload_petId Sample.badAdoptionPayload
    = Some "notAdopted" /\
  fileForAdoption "a-1" "2024-01-01T00:00:00.000Z" Sample.badAdoptionPayload Sample.registered =
    (Err (ValidationError "Invalid adoption payload. Please check all fields."),
     Sample.registered).
Proof.
  split_and!.
  - by_evaluation.
  - vm_compute. reflexivity.
  - vm_compute. reflexivity.
Qed.

(** C3, amended.  For a payload that passes [validateAdoptionPayload] and
    whose [userId] and [petId] resolve: if the pet's status is not
    ["notAdopted"] the filing fails with [InvalidPayload] and changes
    nothing; otherwise it succeeds, stores under the generated id a record
    with status ["pending"], appends that id to the user's [application]
    list, and leaves the pets (and shelters) as they were. *)
Theorem fileForAdoption_valid_resolving
  (uuid now : text) (payload : AdoptionPayload) (s : State) (user : User) (pet : Pet) :
  wf s ->
  validateAdoptionPayload payload = true ->
  UsersStorage s !! AdoptionPayload_userId payload = Some user ->
  PetsStorage s !! AdoptionPayload_petId payload = Some pet ->
  (Pet_status pet <> "notAdopted" ->
     fileForAdoption uuid now payload s =
       (Err (InvalidPayload "Pet is not available for adoption."), s)) /\
  (Pet_status pet = "notAdopted" ->
     exists record s',
       fileForAdoption uuid now payload s = (Ok record, s') /\
       AdoptionRecords_status record = "pending" /\
       AdoptionRecords_adoptionId record = uuid /\
       AdoptionRecords_userId record = AdoptionPayload_userId payload /\
       AdoptionRecords_petId record = AdoptionPayload_petId payload /\
       AdoptionsStorage s' = <[uuid := record]> (AdoptionsStorage s) /\
       UsersStorage s' =
         <[AdoptionPayload_userId payload := User_push_application user uuid]> (UsersStorage s) /\
       User_application (User_push_application user uuid) = (User_application user ++ [uuid])%list /\
       PetsStorage s' = PetsStorage s /\
       SheltersStorage s' = SheltersStorage s).
Proof.
  intros (Hu & Hp & _ & _) Hvalid Huser Hpet. split; intros Hstatus.
  - eapply fileForAdoption_unavailable; eassumption.
  - pose proof (fileForAdoption_available uuid now payload s user pet
                  Hvalid Huser Hpet Hstatus) as Hfile.
    simpl in Hfile.
    rewrite (keyed_lookup _ _ _ _ Hu Huser), (keyed_lookup _ _ _ _ Hp Hpet) in Hfile.
    eexists _, _. split; [exact Hfile|]. simpl. split_and!; reflexivity.
Qed.

Lemma fileForAdoption_valid_resolving_witness :
  let user := newUser "u-1" "ann" Sample.userPayload in
  let pet := newPet "p-1" Sample.petPayload in
  wf Sample.registered /\
  validateAdoptionPayload Sample.adoptionPayload = true /\
  UsersStorage Sample.registered !! "u-1" = Some user /\
  PetsStorage Sample.registered !! "p-1" = Some pet /\
  Pet_status pet = "notAdopted" /\
  exists record s',
    fileForAdoption "a-1" "2024-01-01T00:00:00.000Z" Sample.adoptionPayload Sample.registered
      = (Ok record, s') /\
    AdoptionRecords_status record = "pending" /\
    UsersStorage s' !! "u-1" = Some (User_push_application user "a-1") /\
    AdoptionsStorage s' !! "a-1" = Some record /\
    PetsStorage s' = PetsStorage Sample.registered.
Proof.
  intros user pet.
  assert (Hwf : wf Sample.registered) by by_evaluation.
  assert (Hvalid : validateAdoptionPayload Sample.adoptionPayload = true)
    by (vm_compute; reflexivity).
  assert (Huser : UsersStorage Sample.registered !! "u-1" = Some user)
    by (vm_compute; reflexivity).
  assert (Hpet : PetsStorage Sample.registered !! "p-1" = Some pet)
    by (vm_compute; reflexivity).
  split_and!; try assumption; [reflexivity|].
  destruct (fileForAdoption_valid_resolving "a-1" "2024-01-01T00:00:00.000Z"
              Sample.adoptionPayload Sample.registered user pet Hwf Hvalid Huser Hpet)
    as [_ Hfile].
  destruct (Hfile eq_refl)
    as (record & s' & Hrun & Hst & _ & _ & _ & Hads & Husers & _ & Hpets & _).
  exists record, s'. split_and!; try assumption.
  - rewrite Husers. apply lookup_insert_eq.
  - rewrite Hads. apply lookup_insert_eq.
Defined.

(** C4. [completeAdoption]: [NotFound] when no record has the id,
    [InvalidPayload] when the record is not pending; a success sets the
    referenced pet's status to ["adopted"] and the record's status to
    ["completed"], and completing the same id again then fails with
    [InvalidPayload].  ([wf]: records are stored under their own ids, as in
    every reachable state.) *)
Theorem completeAdoption_spec (adoptionId : text) (s : State) :
  wf s ->
  (AdoptionsStorage s !! adoptionId = None ->
     completeAdoption adoptionId s = (Err (NotFound "Adoption record not found."), s)) /\
  (forall adoption,
     AdoptionsStorage s !! adoptionId = Some adoption ->
     AdoptionRecords_status adoption <> "pending" ->
     completeAdoption adoptionId s =
       (Err (InvalidPayload "Only pending adoptions can be completed."), s)) /\
  (forall record s',
     completeAdoption adoptionId s = (Ok record, s') ->
     exists adoption pet,
       AdoptionsStorage s !! adoptionId = Some adoption /\
       AdoptionRecords_status adoption = "pending" /\
       PetsStorage s !! AdoptionRecords_petId adoption = Some pet /\
       record = AdoptionRecords_set_status adoption "completed" /\
       PetsStorage s' !! AdoptionRecords_petId adoption = Some (Pet_set_status pet "adopted") /\
       AdoptionsStorage s' !! adoptionId = Some (AdoptionRecords_set_status adoption "completed") /\
       completeAdoption adoptionId s' =
         (Err (InvalidPayload "Only pending adoptions can be completed."), s')) /\
  (forall adoption pet,
     AdoptionsStorage s !! adoptionId = Some adoption ->
     AdoptionRecords_status adoption = "pending" ->
     PetsStorage s !! AdoptionRecords_petId adoption = Some pet ->
     exists s', completeAdoption adoptionId s =
                  (Ok (AdoptionRecords_set_status adoption "completed"), s')).
Proof.
  intros (_ & Hp & _ & _). split_and!.
  - intros Hnone. unfold completeAdoption. rewrite Hnone. reflexivity.
  - intros adoption. apply completeAdoption_not_pending.
  - intros record s' Hrun.
    destruct (completeAdoption_Ok_inv _ _ _ _ Hrun) as (adoption & pet & Hget & Hst & Hpet).
    rewrite (completeAdoption_pending _ _ _ _ Hget Hst Hpet) in Hrun.
    rewrite (keyed_lookup _ _ _ _ Hp Hpet) in Hrun.
    injection Hrun as <- <-. simpl.
    exists adoption, pet. split_and!; try done.
    + apply lookup_insert_eq.
    + apply lookup_insert_eq.
    + eapply completeAdoption_not_pending; [apply lookup_insert_eq|]. simpl. discriminate.
  - intros adoption pet Hget Hst Hpet. eexists.
    apply completeAdoption_pending; eassumption.
Qed.

Lemma completeAdoption_spec_witness :
  wf Sample.filed /\
  exists record s',
    completeAdoption "a-1" Sample.filed = (Ok record, s') /\
    AdoptionRecords_status record = "completed" /\
    Pet_status <$> PetsStorage s' !! "p-1" = Some "adopted" /\
    AdoptionRecords_status <$> AdoptionsStorage s' !! "a-1" = Some "completed" /\
    completeAdoption "a-1" s' =
      (Err (InvalidPayload "Only pending adoptions can be completed."), s').
Proof.
  assert (Hwf : wf Sample.filed) by by_evaluation.
  split; [exact Hwf|].
  destruct (completeAdoption "a-1" Sample.filed) as [r s'] eqn:Hrun.
  assert (Hok : exists record, r = Ok record).
  { assert (Hr : r = (completeAdoption "a-1" Sample.filed).1) by (rewrite Hrun; reflexivity).
    rewrite Hr. eexists. vm_compute. reflexivity. }
  destruct Hok as [record ->].
  destruct (completeAdoption_spec "a-1" Sample.filed Hwf) as (_ & _ & Hsuccess & _).
  destruct (Hsuccess record s' Hrun)
    as (adoption & pet & Hget & _ & Hpet & -> & Hpets & Hads & Hagain).
  assert (Hid : AdoptionRecords_petId adoption = "p-1").
  { assert (Hfd : Some adoption =
      Some (mkAdoptionRecords "a-1" "u-1" "p-1" "Rex" "Ann" "0798765432" "12 Hill Road"
              "company" "2024-01-01T00:00:00.000Z" "pending"))
      by (rewrite <- Hget; vm_compute; reflexivity).
    injection Hfd as ->. reflexivity. }
  rewrite Hid in Hpets.
  exists (AdoptionRecords_set_status adoption "completed"), s'.
  split_and!; try done.
  - exact (f_equal (fmap Pet_status) Hpets).
  - exact (f_equal (fmap AdoptionRecords_status) Hads).
Defined.

(** C5. Stated by the specification: after a successful [failAdoption]
    the referenced pet is ["notAdopted"], so a valid filing for it
    succeeds.  In the sample history two filings for ["p-1"] are pending at
    once and the first is completed; in that reachable state
    [failAdoption "a-2"] succeeds and leaves the pets alone, the pet is
    ["adopted"], and a valid filing for it with resolving ids is rejected
    with [InvalidPayload]. *)
Theorem failAdoption_of_second_pending_record :
  reachable Sample.completedFirst /\
  AdoptionRecords_status <$> AdoptionsStorage Sample.completedFirst !! "a-2" = Some "pending" /\
  exists failed s',
    failAdoption "a-2" Sample.completedFirst = (Ok failed, s') /\
    AdoptionRecords_status failed = "failed" /\
    AdoptionsStorage s' !! "a-2" = Some failed /\
    PetsStorage s' = PetsStorage Sample.completedFirst /\
    Pet_status <$> PetsStorage s' !! "p-1" = Some "adopted" /\
    validateAdoptionPayload Sample.adoptionPayload = true /\
    is_Some (UsersStorage s' !! AdoptionPayload_userId Sample.adoptionPayload) /\
    is_Some (PetsStorage s' !! AdoptionPayload_petId Sample.adoptionPayload) /\
    fileForAdoption "a-3" "2024-01-03T00:00:00.000Z" Sample.adoptionPayload s' =
      (Err (InvalidPayload "Pet is not available for adoption."), s').
Proof.
  split_and!.
  - change Sample.completedFirst
      with (run (Sample.setup ++
                   [Sample.file1; Sample.file2; CallCompleteAdoption "a-1"]) init).
    apply reachable_run; [apply reachable_init|by_evaluation].
  - vm_compute. reflexivity.
  - eexists _, _. split_and!.
    + apply failAdoption_pending with
        (adoption := mkAdoptionRecords "a-2" "u-1" "p-1" "Rex" "Ann" "0798765432"
                       "12 Hill Road" "company" "2024-01-02T00:00:00.000Z" "pending");
        vm_compute; reflexivity.
    + reflexivity.
    + apply lookup_insert_eq.
    + reflexivity.
    + vm_compute. reflexivity.
    + vm_compute. reflexivity.
    + by_evaluation.
    + by_evaluation.
    + vm_compute. reflexivity.
Qed.

Lemma appended_once (l : list text) (x : text) :
  x ∉ l -> length (filter (fun y => y = x) (l ++ [x])%list) = 1.
Proof.
  induction l as [|y l IH]; intros Hnot.
  - simpl. rewrite filter_cons_True by reflexivity. reflexivity.
  - apply not_elem_of_cons in Hnot as [Hne Hnot]. simpl.
    rewrite filter_cons_False by (intros ->; apply Hne; reflexivity).
    apply IH, Hnot.
Qed.

Lemma updatePetInfo_shelterId payload s k pet :
  keyed Pet_id (PetsStorage s) ->
  PetsStorage s !! k = Some pet ->
  Pet_shelterId <$> PetsStorage (updatePetInfo payload s).2 !! k = Some (Pet_shelterId pet).
Proof.
  intros Hp Hk. unfold updatePetInfo.
  destruct (PetsStorage s !! UpdatePetPayload_petId payload) as [target|] eqn:Hget;
    simpl; [|rewrite Hk; reflexivity].
  destruct (negb _); simpl; [rewrite Hk; reflexivity|].
  rewrite (keyed_lookup _ _ _ _ Hp Hget).
  destruct (decide (UpdatePetPayload_petId payload = k)) as [<-|Hne].
  - rewrite lookup_insert_eq. simpl. congruence.
  - rewrite lookup_insert_ne by assumption. rewrite Hk. reflexivity.
Qed.

(** C6. Every call keeps the shelter lists sound: each pet id in a
    shelter's [pets] list is the key of a pet whose [shelterId] is that
    shelter's id.  A successful [addPet] appends the generated id to the
    list of the shelter named by the payload, where it then occurs exactly
    once; [updatePetInfo] changes no pet's [shelterId].  ([wf]: records are
    stored under their own ids, as in every reachable state; [uuid_fresh],
    [unused]: the identifier drawn by [uuidv4()] is not yet a key.) *)
Theorem shelter_pet_lists_preserved (s : State) :
  wf s -> shelter_pets_ok s ->
  (forall c, uuid_fresh c s -> shelter_pets_ok (exec c s).2) /\
  (forall uuid payload pet s',
     unused uuid s -> addPet uuid payload s = (Ok pet, s') ->
     exists shelter,
       SheltersStorage s !! PetPayload_shelterId payload = Some shelter /\
       (uuid ∉ Shelter_pets shelter) /\
       SheltersStorage s' !! PetPayload_shelterId payload = Some (Shelter_push_pets shelter uuid) /\
       Shelter_pets (Shelter_push_pets shelter uuid) = (Shelter_pets shelter ++ [uuid])%list /\
       length (filter (fun y => y = uuid) (Shelter_pets (Shelter_push_pets shelter uuid))) = 1 /\
       PetsStorage s' !! uuid = Some pet /\
       Pet_id pet = uuid /\
       Pet_shelterId pet = Shelter_id shelter) /\
  (forall payload k pet,
     PetsStorage s !! k = Some pet ->
     Pet_shelterId <$> PetsStorage (updatePetInfo payload s).2 !! k = Some (Pet_shelterId pet)).
Proof.
  intros Hwf Hok. split_and!.
  - intros c Hfresh. apply exec_shelter_pets_ok; assumption.
  - intros uuid payload pet s' (_ & Hnone & _) Hrun.
    destruct Hwf as (_ & _ & Hs & _). apply shelter_pets_ok_refs in Hok.
    unfold addPet in Hrun.
    destruct (negb (validatePetPayload payload)); [discriminate|].
    destruct (SheltersStorage s !! PetPayload_shelterId payload) as [shelter|] eqn:Hget;
      [|discriminate].
    injection Hrun as <- <-. simpl.
    pose proof (keyed_lookup _ _ _ _ Hs Hget) as Hid.
    assert (Hnot : uuid ∉ Shelter_pets shelter)
      by (eapply refs_ok_not_in; eassumption).
    exists shelter. split_and!; try done.
    + rewrite Hid. apply lookup_insert_eq.
    + apply appended_once, Hnot.
    + apply lookup_insert_eq.
  - intros payload k pet. apply updatePetInfo_shelterId. apply Hwf.
Qed.

Lemma shelter_pet_lists_preserved_witness :
  let s := run [CallCreateShelter "owner" "s-1" Sample.shelterPayload] init in
  let c := CallAddPet "p-1" Sample.petPayload in
  wf s /\ shelter_pets_ok s /\ uuid_fresh c s /\
  shelter_pets_ok (exec c s).2 /\
  exists shelter,
    SheltersStorage s !! "s-1" = Some shelter /\
    SheltersStorage (exec c s).2 !! "s-1" = Some (Shelter_push_pets shelter "p-1").
Proof.
  intros s c.
  assert (Hwf : wf s) by by_evaluation.
  assert (Hok : shelter_pets_ok s) by by_evaluation.
  assert (Hfresh : uuid_fresh c s) by by_evaluation.
  destruct (shelter_pet_lists_preserved s Hwf Hok) as (Hexec & Hadd & _).
  split_and!; try assumption.
  - apply Hexec, Hfresh.
  - destruct (Hadd "p-1" Sample.petPayload (newPet "p-1" Sample.petPayload)
                (exec c s).2 Hfresh) as (shelter & Hget & _ & Hget' & _).
    + vm_compute. reflexivity.
    + exists shelter. split; assumption.
Defined.

(** C7. [updatePetInfo] and [updateShelterInfo] validate the merged
    record.  When the target exists: a merged record that fails the
    validator (for a pet, for instance, a [healthStatus] that is empty
    after trimming) gives [ValidationError] and leaves the stores as they
    were; one that passes is stored under the target's key and returned.
    ([wf]: records are stored under their own ids, as in every reachable
    state.) *)
Theorem update_validates_merged_record (s : State) :
  wf s ->
  (forall payload pet,
     PetsStorage s !! UpdatePetPayload_petId payload = Some pet ->
     (validatePetPayload (Pet_fields (Pet_merge pet payload)) = false ->
        updatePetInfo payload s =
          (Err (ValidationError "Invalid pet payload. Please check all fields."), s)) /\
     (Str.trim (UpdatePetPayload_healthStatus payload) = "" ->
        validatePetPayload (Pet_fields (Pet_merge pet payload)) = false) /\
     (validatePetPayload (Pet_fields (Pet_merge pet payload)) = true ->
        exists s',
          updatePetInfo payload s = (Ok (Pet_merge pet payload), s') /\
          PetsStorage s' = <[UpdatePetPayload_petId payload := Pet_merge pet payload]> (PetsStorage s) /\
          PetsStorage s' !! UpdatePetPayload_petId payload = Some (Pet_merge pet payload))) /\
  (forall payload shelter,
     SheltersStorage s !! UpdateShelterPayload_id payload = Some shelter ->
     (validateShelterPayload (Shelter_fields (Shelter_merge shelter payload)) = false ->
        updateShelterInfo payload s =
          (Err (ValidationError "Invalid shelter payload. Please check all fields."), s)) /\
     (validateShelterPayload (Shelter_fields (Shelter_merge shelter payload)) = true ->
        exists s',
          updateShelterInfo payload s = (Ok (Shelter_merge shelter payload), s') /\
          SheltersStorage s' =
            <[UpdateShelterPayload_id payload := Shelter_merge shelter payload]> (SheltersStorage s) /\
          SheltersStorage s' !! UpdateShelterPayload_id payload =
            Some (Shelter_merge shelter payload))).
Proof.
  intros (_ & Hp & Hs & _). split.
  - intros payload pet Hget. split_and!.
    + intros Hbad. unfold updatePetInfo. rewrite Hget. simpl. rewrite Hbad. reflexivity.
    + intros Hblank. unfold validatePetPayload. simpl.
      rewrite (nonBlank_trim_empty _ Hblank).
      rewrite andb_false_r. reflexivity.
    + intros Hgood. unfold updatePetInfo. rewrite Hget. simpl. rewrite Hgood. simpl.
      rewrite (keyed_lookup _ _ _ _ Hp Hget).
      eexists. split_and!; [reflexivity|reflexivity|]. simpl. apply lookup_insert_eq.
  - intros payload shelter Hget. split.
    + intros Hbad. unfold updateShelterInfo. rewrite Hget. simpl. rewrite Hbad. reflexivity.
    + intros Hgood. unfold updateShelterInfo. rewrite Hget. simpl. rewrite Hgood. simpl.
      rewrite (keyed_lookup _ _ _ _ Hs Hget).
      eexists. split_and!; [reflexivity|reflexivity|]. simpl. apply lookup_insert_eq.
Qed.

Lemma update_validates_merged_record_witness :
  let pet := newPet "p-1" Sample.petPayload in
  let blank := mkUpdatePetPayload "p-1" "   " "4" in
  let patch := mkUpdatePetPayload "p-1" "vaccinated" "4" in
  wf Sample.registered /\
  PetsStorage Sample.registered !! "p-1" = Some pet /\
  updatePetInfo blank Sample.registered =
    (Err (ValidationError "Invalid pet payload. Please check all fields."), Sample.registered) /\
  exists s',
    updatePetInfo patch Sample.registered = (Ok (Pet_merge pet patch), s') /\
    PetsStorage s' !! "p-1" = Some (Pet_merge pet patch).
Proof.
  intros pet blank patch.
  assert (Hwf : wf Sample.registered) by by_evaluation.
  assert (Hget : PetsStorage Sample.registered !! "p-1" = Some pet)
    by (vm_compute; reflexivity).
  destruct (update_validates_merged_record Sample.registered Hwf) as [Hpets _].
  split_and!; try assumption.
  - destruct (Hpets blank pet Hget) as (Hbad & Hblank & _).
    apply Hbad, Hblank. reflexivity.
  - destruct (Hpets patch pet Hget) as (_ & _ & Hgood).
    destruct Hgood as (s' & Hrun & _ & Hstored); [vm_compute; reflexivity|].
    exists s'. split; assumption.
Defined.

(** C8. A filing that succeeds stores, under the generated id, a record
    whose [userPhoneNumber] and [address] are those of the user record and
    whose [reasonForAdoption] is the payload's.  The payload's own
    [userPhoneNumber] and [address] only have to pass validation: with any
    other valid phone number and non-blank address in their place the
    reply and the stores are the same. *)
Theorem fileForAdoption_contact_from_user
  (uuid now : text) (payload : AdoptionPayload) (s : State)
  (record : AdoptionRecords) (s' : State) :
  fileForAdoption uuid now payload s = (Ok record, s') ->
  (exists user,
     UsersStorage s !! AdoptionPayload_userId payload = Some user /\
     AdoptionRecords_userPhoneNumber record = User_phoneNumber user /\
     AdoptionRecords_address record = User_address user) /\
  AdoptionRecords_reasonForAdoption record = AdoptionPayload_reasonForAdoption payload /\
  AdoptionsStorage s' !! uuid = Some record /\
  (forall phoneNumber address,
     isValidPhoneNumber phoneNumber = true -> Str.nonBlank address = true ->
     fileForAdoption uuid now
       (mkAdoptionPayload (AdoptionPayload_petId payload) (AdoptionPayload_userId payload)
          phoneNumber address (AdoptionPayload_reasonForAdoption payload)) s
     = (Ok record, s')).
Proof.
  intros Hrun.
  destruct (fileForAdoption_Ok_inv _ _ _ _ _ _ Hrun)
    as (Hvalid & user & pet & Huser & Hpet & Hstatus).
  pose proof (fileForAdoption_available uuid now payload s user pet
                Hvalid Huser Hpet Hstatus) as Hfile.
  simpl in Hfile. rewrite Hfile in Hrun. injection Hrun as <- <-. simpl.
  split_and!; try done.
  - exists user. done.
  - apply lookup_insert_eq.
  - intros phoneNumber address Hphone Haddress.
    apply (fileForAdoption_available uuid now
             (mkAdoptionPayload _ _ phoneNumber address _) s user pet); simpl; try assumption.
    unfold validateAdoptionPayload in *. simpl.
    apply andb_prop in Hvalid as [Hvalid Hreason].
    apply andb_prop in Hvalid as [Hvalid _].
    apply andb_prop in Hvalid as [Hvalid _].
    rewrite Hvalid, Hphone, Haddress, Hreason. reflexivity.
Qed.

Lemma fileForAdoption_contact_from_user_witness :
  exists record s',
    fileForAdoption "a-1" "2024-01-01T00:00:00.000Z" Sample.adoptionPayload Sample.registered
      = (Ok record, s') /\
    AdoptionPayload_userPhoneNumber Sample.adoptionPayload = "0700000000" /\
    AdoptionPayload_address Sample.adoptionPayload = "7 Lake View" /\
    AdoptionRecords_userPhoneNumber record = "0798765432" /\
    AdoptionRecords_address record = "12 Hill Road" /\
    AdoptionRecords_reasonForAdoption record = "company" /\
    AdoptionsStorage s' !! "a-1" = Some record.
Proof.
  destruct (fileForAdoption "a-1" "2024-01-01T00:00:00.000Z" Sample.adoptionPayload
              Sample.registered) as [r s'] eqn:Hrun.
  assert (Hr : r = Ok (mkAdoptionRecords "a-1" "u-1" "p-1" "Rex" "Ann" "0798765432"
                         "12 Hill Road" "company" "2024-01-01T00:00:00.000Z" "pending")).
  { change r with (r, s').1. rewrite <- Hrun. vm_compute. reflexivity. }
  subst r.
  destruct (fileForAdoption_contact_from_user _ _ _ _ _ _ Hrun) as (_ & _ & Hstored & _).
  eexists _, s'. split; [reflexivity|]. split_and!; try reflexivity. exact Hstored.
Defined.

(** C9. A pending record whose [petId] is not the key of any pet:
    [completeAdoption] replies [NotFound] and changes no store, so the
    record stays pending and the pets are as before. *)
Theorem completeAdoption_missing_pet (adoptionId : text) (s : State) (adoption : AdoptionRecords) :
  AdoptionsStorage s !! adoptionId = Some adoption ->
  AdoptionRecords_status adoption = "pending" ->
  PetsStorage s !! AdoptionRecords_petId adoption = None ->
  completeAdoption adoptionId s = (Err (NotFound "Associated pet not found."), s) /\
  AdoptionsStorage (completeAdoption adoptionId s).2 !! adoptionId = Some adoption /\
  PetsStorage (completeAdoption adoptionId s).2 = PetsStorage s.
Proof.
  intros Hget Hstatus Hpet.
  assert (Hrun : completeAdoption adoptionId s =
                   (Err (NotFound "Associated pet not found."), s)).
  { unfold completeAdoption.
    rewrite Hget, (bool_decide_eq_true_2 _ Hstatus). simpl. rewrite Hpet. reflexivity. }
  rewrite Hrun. simpl. auto.
Qed.

Lemma completeAdoption_missing_pet_witness :
  let orphan := mkAdoptionRecords "a-9" "u-1" "p-404" "Rex" "Ann" "0798765432"
                  "12 Hill Road" "company" "2024-01-01T00:00:00.000Z" "pending" in
  let s := mkState ∅ ∅ ∅ {[ "a-9" := orphan ]} in
  completeAdoption "a-9" s = (Err (NotFound "Associated pet not found."), s).
Proof.
  intros orphan s.
  apply (completeAdoption_missing_pet "a-9" s orphan); vm_compute; reflexivity.
Defined.

(** C10. [getPetsNotAdopted] returns exactly the stored pets whose status
    is ["notAdopted"]; [searchPetsBySpecies] returns exactly the stored
    pets whose species equals the query after lower-casing both, that is,
    the two strings have the same length and the same letters up to case
    (a species that merely contains the query is not a match). *)
Theorem pet_queries_exact (s : State) :
  (forall pet,
     pet ∈ getPetsNotAdopted s <->
     (exists k, PetsStorage s !! k = Some pet) /\ Pet_status pet = "notAdopted") /\
  (forall species pet,
     pet ∈ searchPetsBySpecies species s <->
     (exists k, PetsStorage s !! k = Some pet) /\
     Str.toLowerCase (Pet_species pet) = Str.toLowerCase species) /\
  (forall species pet,
     pet ∈ searchPetsBySpecies species s <->
     (exists k, PetsStorage s !! k = Some pet) /\
     equalIgnoringCase (Pet_species pet) species) /\
  (forall species pet,
     pet ∈ searchPetsBySpecies species s ->
     String.length (Pet_species pet) = String.length species).
Proof.
  assert (Hsearch : forall species pet,
     pet ∈ searchPetsBySpecies species s <->
     (exists k, PetsStorage s !! k = Some pet) /\
     Str.toLowerCase (Pet_species pet) = Str.toLowerCase species).
  { intros species pet. unfold searchPetsBySpecies.
    rewrite list_elem_of_filter, elem_of_values. tauto. }
  split_and!.
  - intros pet. unfold getPetsNotAdopted.
    rewrite list_elem_of_filter, elem_of_values. tauto.
  - exact Hsearch.
  - intros species pet. rewrite Hsearch, toLowerCase_eq_iff. reflexivity.
  - intros species pet [_ Heq]%Hsearch.
    rewrite <- (toLowerCase_length (Pet_species pet)), Heq. apply toLowerCase_length.
Qed.

(** The sample pet is a ["Dog"]: found under any spelling of the case, not
    under a part of the word. *)
Example searchPetsBySpecies_sample :
  searchPetsBySpecies "dOG" Sample.registered = [newPet "p-1" Sample.petPayload] /\
  searchPetsBySpecies "Do" Sample.registered = [] /\
  getPetsNotAdopted Sample.registered = [newPet "p-1" Sample.petPayload] /\
  getPetsNotAdopted Sample.completedFirst = [].
Proof. split_and!; vm_compute; reflexivity. Qed.

Lemma pet_queries_exact_witness :
  newPet "p-1" Sample.petPayload ∈ searchPetsBySpecies "dOG" Sample.registered /\
  newPet "p-1" Sample.petPayload ∈ getPetsNotAdopted Sample.registered.
Proof.
  destruct (pet_queries_exact Sample.registered) as (Hnot & Hsearch & _).
  split.
  - apply Hsearch. split; [exists "p-1"|]; vm_compute; reflexivity.
  - apply Hnot. split; [exists "p-1"|]; vm_compute; reflexivity.
Defined.

(** ** Further properties of the methods *)

Lemma append_empty_l (s : string) : "" ++ s = s.
Proof. reflexivity. Qed.

Lemma append_cons (c : ascii) (a b : string) : String c a ++ b = String c (a ++ b).
Proof. reflexivity. Qed.

Lemma append_empty_r (s : string) : s ++ "" = s.
Proof. induction s as [|c s IH]; [reflexivity|]. rewrite append_cons, IH. reflexivity. Qed.

Lemma append_assoc (a b c : string) : (a ++ b) ++ c = a ++ (b ++ c).
Proof. induction a as [|x a IH]; [reflexivity|]. rewrite !append_cons, IH. reflexivity. Qed.

Lemma append_eq_empty (a b : string) : a ++ b = "" -> a = "" /\ b = "".
Proof. destruct a; [auto|]. rewrite append_cons. discriminate. Qed.

Lemma append_length (a b : string) :
  String.length (a ++ b) = String.length a + String.length b.
Proof. induction a as [|x a IH]; [reflexivity|]. rewrite append_cons. simpl. congruence. Qed.

Lemma allChars_append f (a b : string) :
  allChars f (a ++ b) = allChars f a && allChars f b.
Proof.
  induction a as [|x a IH]; [reflexivity|].
  rewrite append_cons. simpl. rewrite IH, andb_assoc. reflexivity.
Qed.

(** *** The derivative matcher decides the denotation *)

Lemma nullable_matches r : Regex.nullable r = true <-> regex_matches r "".
Proof.
  split.
  - induction r; simpl; intros H; try discriminate.
    + constructor.
    + apply andb_prop in H as [H1 H2].
      change "" with ("" ++ ""). constructor; auto.
    + apply orb_prop in H as [H|H]; [apply matches_alt_l|apply matches_alt_r]; auto.
    + constructor.
  - induction r; simpl; intros H; inversion H; subst; auto.
    + match goal with E : _ ++ _ = "" |- _ => apply append_eq_empty in E as [-> ->] end.
      rewrite IHr1, IHr2 by assumption. reflexivity.
    + rewrite IHr1 by assumption. reflexivity.
    + rewrite IHr2 by assumption. apply orb_true_r.
Qed.

Lemma matches_star_cons_inv r c s :
  regex_matches (Regex.Star r) (String c s) ->
  exists s1 s2, s = s1 ++ s2 /\ regex_matches r (String c s1) /\ regex_matches (Regex.Star r) s2.
Proof.
  intros H. remember (Regex.Star r) as r0 eqn:Hr. remember (String c s) as s0 eqn:Hs.
  revert s Hs.
  induction H as [| | | | | |r' t1 t2 H1 _ H2 IH2]; intros t Ht; try discriminate.
  injection Hr as ->.
  destruct t1 as [|c1 t1]; [|rewrite append_cons in Ht].
  - apply IH2; auto.
  - injection Ht as -> <-. exists t1, t2. auto.
Qed.

Lemma deriv_matches c r s :
  regex_matches (Regex.deriv c r) s <-> regex_matches r (String c s).
Proof.
  split.
  - revert s. induction r as [| |f|r1 IH1 r2 IH2|r1 IH1 r2 IH2|r IH]; simpl; intros s H.
    + inversion H.
    + inversion H.
    + destruct (f c) eqn:Hf; inversion H; subst. constructor. exact Hf.
    + destruct (Regex.nullable r1) eqn:Hn.
      * inversion H as [| | | ? ? ? H'|? ? ? H'| |]; subst.
        -- inversion H'; subst.
           change (String c (?a ++ ?b)) with (String c a ++ b).
           constructor; auto.
        -- change (String c s) with ("" ++ String c s).
           constructor; [apply nullable_matches, Hn|auto].
      * inversion H; subst.
        change (String c (?a ++ ?b)) with (String c a ++ b).
        constructor; auto.
    + inversion H; subst; [apply matches_alt_l|apply matches_alt_r]; auto.
    + inversion H; subst.
      change (String c (?a ++ ?b)) with (String c a ++ b).
      constructor; auto.
  - revert s. induction r as [| |f|r1 IH1 r2 IH2|r1 IH1 r2 IH2|r IH]; simpl; intros s H.
    + inversion H.
    + inversion H.
    + inversion H; subst. match goal with E : f c = true |- _ => rewrite E end. constructor.
    + inversion H as [| |? ? s1 s2 H1 H2 Hr Hs| | | |]; subst.
      destruct s1 as [|c1 s1]; [|rewrite append_cons in Hs].
      * change ("" ++ s2) with s2 in Hs. subst s2.
        rewrite (proj2 (nullable_matches r1) H1).
        apply matches_alt_r. auto.
      * injection Hs as -> <-.
        assert (Hcat : regex_matches (Regex.Cat (Regex.deriv c r1) r2) (s1 ++ s2))
          by (constructor; auto).
        destruct (Regex.nullable r1); [apply matches_alt_l|]; exact Hcat.
    + inversion H; subst; [apply matches_alt_l|apply matches_alt_r]; auto.
    + apply matches_star_cons_inv in H as (s1 & s2 & -> & H1 & H2).
      constructor; auto.
Qed.

Lemma test_matches r s : Regex.test r s = true <-> regex_matches r s.
Proof.
  revert r. induction s as [|c s IH]; intros r; simpl.
  - apply nullable_matches.
  - rewrite IH. apply deriv_matches.
Qed.

Lemma matches_class_inv f s :
  regex_matches (Regex.Class f) s <-> exists c, s = String c "" /\ f c = true.
Proof.
  split.
  - intros H. inversion H; subst. eauto.
  - intros (c & -> & Hc). constructor. exact Hc.
Qed.

Lemma matches_cat_inv r1 r2 s :
  regex_matches (Regex.Cat r1 r2) s <->
  exists s1 s2, s = s1 ++ s2 /\ regex_matches r1 s1 /\ regex_matches r2 s2.
Proof.
  split.
  - intros H. inversion H; subst. eauto.
  - intros (s1 & s2 & -> & H1 & H2). constructor; assumption.
Qed.

Lemma matches_star_class f s :
  regex_matches (Regex.Star (Regex.Class f)) s <-> allChars f s = true.
Proof.
  split.
  - intros H. remember (Regex.Star (Regex.Class f)) as r eqn:Hr.
    induction H as [| | | | | |r' s1 s2 H1 _ _ IH2]; try discriminate; [reflexivity|].
    injection Hr as ->. apply matches_class_inv in H1 as (c & -> & Hc).
    rewrite append_cons, append_empty_l. simpl. rewrite Hc. apply IH2. reflexivity.
  - induction s as [|c s IH]; simpl; intros H; [constructor|].
    apply andb_prop in H as [Hc Hs].
    change (String c s) with (String c "" ++ s).
    constructor; [constructor; exact Hc|apply IH, Hs].
Qed.

Lemma matches_plus_class f s :
  regex_matches (Regex.Plus (Regex.Class f)) s <-> s <> "" /\ allChars f s = true.
Proof.
  unfold Regex.Plus. rewrite matches_cat_inv. split.
  - intros (s1 & s2 & -> & H1 & H2).
    apply matches_class_inv in H1 as (c & -> & Hc). apply matches_star_class in H2.
    rewrite append_cons, append_empty_l. simpl. rewrite Hc, H2. split; [discriminate|reflexivity].
  - intros [Hne Hall]. destruct s as [|c s]; [congruence|].
    simpl in Hall. apply andb_prop in Hall as [Hc Hs].
    exists (String c ""), s. split; [reflexivity|].
    split; [constructor; exact Hc|apply matches_star_class, Hs].
Qed.

Lemma matches_power_class n f s :
  regex_matches (Regex.power n (Regex.Class f)) s <->
  String.length s = n /\ allChars f s = true.
Proof.
  revert s. induction n as [|n IH]; intros s; simpl.
  - split.
    + intros H. inversion H. auto.
    + intros [Hlen _]. destruct s; [constructor|discriminate].
  - rewrite matches_cat_inv. split.
    + intros (s1 & s2 & -> & H1 & H2).
      apply matches_class_inv in H1 as (c & -> & Hc). apply IH in H2 as [<- Hall].
      rewrite append_cons, append_empty_l. simpl. rewrite Hc, Hall. auto.
    + intros [Hlen Hall]. destruct s as [|c s]; [discriminate|].
      simpl in Hlen, Hall. apply andb_prop in Hall as [Hc Hs].
      exists (String c ""), s. split; [reflexivity|].
      split; [constructor; exact Hc|apply IH; split; congruence].
Qed.

Lemma matches_power_opt_class n f s :
  regex_matches (Regex.power n (Regex.Opt (Regex.Class f))) s <->
  String.length s <= n /\ allChars f s = true.
Proof.
  revert s. induction n as [|n IH]; intros s; simpl.
  - split.
    + intros H. inversion H. auto.
    + intros [Hlen _]. destruct s; [constructor|simpl in Hlen; lia].
  - rewrite matches_cat_inv. split.
    + intros (s1 & s2 & -> & H1 & H2). apply IH in H2 as [Hlen Hall].
      inversion H1 as [| | |? ? ? H'|? ? ? H'| |]; subst.
      * inversion H'; subst. rewrite append_empty_l. split; [lia|exact Hall].
      * apply matches_class_inv in H' as (c & -> & Hc).
        rewrite append_cons, append_empty_l. simpl. rewrite Hc, Hall. split; [lia|reflexivity].
    + intros [Hlen Hall]. destruct s as [|c s].
      * exists "", "". split; [reflexivity|].
        split; [apply matches_alt_l; constructor|apply IH; simpl; split; [lia|reflexivity]].
      * simpl in Hlen, Hall. apply andb_prop in Hall as [Hc Hs].
        exists (String c ""), s. split; [reflexivity|].
        split; [apply matches_alt_r; constructor; exact Hc|apply IH; split; [lia|exact Hs]].
Qed.

Lemma split_at (n : nat) (s : string) :
  n <= String.length s -> exists a b, s = a ++ b /\ String.length a = n.
Proof.
  revert s. induction n as [|n IH]; intros s Hlen.
  - exists "", s. auto.
  - destruct s as [|c s]; [simpl in Hlen; lia|].
    destruct (IH s) as (a & b & -> & Ha); [simpl in Hlen; lia|].
    exists (String c a), b. split; [reflexivity|simpl; congruence].
Qed.

(** [isValidPhoneNumber] accepts exactly the strings of 10 to 15
    characters that are all digits [0-9]. *)
Theorem isValidPhoneNumber_iff (phoneNumber : text) :
  isValidPhoneNumber phoneNumber = true <->
  10 <= String.length phoneNumber <= 15 /\ allChars isDigit phoneNumber = true.
Proof.
  unfold isValidPhoneNumber, phoneRegex, Regex.Range.
  rewrite test_matches, matches_cat_inv. split.
  - intros (s1 & s2 & -> & H1 & H2).
    apply matches_power_class in H1 as [Hl1 Ha1].
    apply matches_power_opt_class in H2 as [Hl2 Ha2].
    rewrite append_length, allChars_append, Ha1, Ha2. split; [lia|reflexivity].
  - intros [[Hlo Hhi] Hall].
    destruct (split_at 10 phoneNumber Hlo) as (a & b & -> & Ha).
    rewrite append_length in Hhi. rewrite allChars_append in Hall.
    apply andb_prop in Hall as [Hall1 Hall2].
    exists a, b. split; [reflexivity|].
    split; [apply matches_power_class|apply matches_power_opt_class]; split;
      [assumption|assumption|lia|assumption].
Qed.

(** [isValidEmail] accepts exactly the strings of the form
    [local@domain.tld] whose three parts are non-empty and hold neither
    white space nor [@] (the parts may hold dots). *)
Theorem isValidEmail_iff (email : text) :
  isValidEmail email = true <->
  exists localPart domain tld,
    email = localPart ++ "@" ++ domain ++ "." ++ tld /\
    localPart <> "" /\ domain <> "" /\ tld <> "" /\
    allChars notSpaceNorAt localPart = true /\
    allChars notSpaceNorAt domain = true /\
    allChars notSpaceNorAt tld = true.
Proof.
  unfold isValidEmail, emailRegex. rewrite test_matches. split.
  - intros H.
    apply matches_cat_inv in H as (l & r1 & -> & Hl & H).
    apply matches_cat_inv in H as (at_ & r2 & -> & Hat & H).
    apply matches_cat_inv in H as (d & r3 & -> & Hd & H).
    apply matches_cat_inv in H as (dot & t & -> & Hdot & Ht).
    apply matches_plus_class in Hl as [Hl1 Hl2].
    apply matches_plus_class in Hd as [Hd1 Hd2].
    apply matches_plus_class in Ht as [Ht1 Ht2].
    apply matches_class_inv in Hat as (c & -> & Hc).
    apply matches_class_inv in Hdot as (c' & -> & Hc').
    unfold isChar in Hc, Hc'. apply Ascii.eqb_eq in Hc as ->. apply Ascii.eqb_eq in Hc' as ->.
    exists l, d, t. auto 10.
  - intros (l & d & t & -> & Hl & Hd & Ht & Hal & Had & Hat).
    constructor; [apply matches_plus_class; auto|].
    constructor; [constructor; reflexivity|].
    constructor; [apply matches_plus_class; auto|].
    constructor; [constructor; reflexivity|].
    apply matches_plus_class; auto.
Qed.

Lemma trimStart_empty_iff (s : string) :
  Str.trimStart s = "" <-> allChars Str.isWhiteSpace s = true.
Proof.
  induction s as [|c s IH]; simpl; [tauto|].
  destruct (Str.isWhiteSpace c); simpl; [exact IH|].
  split; discriminate.
Qed.

Lemma trimEnd_empty_iff (s : string) :
  Str.trimEnd s = "" <-> allChars Str.isWhiteSpace s = true.
Proof.
  induction s as [|c s IH]; simpl; [tauto|].
  destruct (Str.trimEnd s) as [|d r] eqn:Hr.
  - destruct (Str.isWhiteSpace c); simpl.
    + split; [intros _; apply IH; reflexivity|reflexivity].
    + split; discriminate.
  - split; [discriminate|]. intros H. apply andb_prop in H as [_ H].
    apply IH in H. discriminate.
Qed.

Lemma allChars_trimStart (s : string) :
  allChars Str.isWhiteSpace (Str.trimStart s) = allChars Str.isWhiteSpace s.
Proof.
  induction s as [|c s IH]; simpl; [reflexivity|].
  destruct (Str.isWhiteSpace c) eqn:Hc; simpl; [exact IH|]. rewrite Hc. reflexivity.
Qed.

Lemma trim_empty_iff (s : string) :
  Str.trim s = "" <-> allChars Str.isWhiteSpace s = true.
Proof. unfold Str.trim. rewrite trimEnd_empty_iff, allChars_trimStart. reflexivity. Qed.

(** The test [s.trim().length > 0] of the validators holds exactly when
    some character of [s] is not white space, and fails exactly when [s]
    trims to the empty string. *)
Theorem nonBlank_iff (s : text) :
  (Str.nonBlank s = true <-> allChars Str.isWhiteSpace s = false) /\
  (Str.nonBlank s = false <-> Str.trim s = "").
Proof.
  assert (Hblank : Str.nonBlank s = false <-> Str.trim s = "").
  { unfold Str.nonBlank. destruct (Str.trim s); simpl; split; (reflexivity || discriminate). }
  split; [|exact Hblank].
  destruct (allChars Str.isWhiteSpace s) eqn:Hall.
  - apply trim_empty_iff, Hblank in Hall. rewrite Hall. split; discriminate.
  - destruct (Str.nonBlank s) eqn:Hnb; [tauto|].
    destruct Hblank as [Hb _]. specialize (Hb eq_refl).
    apply trim_empty_iff in Hb. congruence.
Qed.

Lemma exec_transition c s : wf s -> uuid_fresh c s -> transition s (exec c s).2.
Proof.
  intros (Hu & Hp & Hs & Ha) Hfresh.
  destruct c; simpl; unfold reply; simpl; try apply transition_none.
  - unfold addUser. destruct (validateUserPayload payload) eqn:Hv; simpl;
      [|apply transition_none].
    flat; apply transition_addUser; assumption.
  - unfold addPet. destruct (validatePetPayload payload) eqn:Hv; simpl;
      [|apply transition_none].
    destruct (SheltersStorage s !! PetPayload_shelterId payload) as [shelter|] eqn:Hget;
      simpl; [|apply transition_none].
    rewrite (keyed_lookup _ _ _ _ Hs Hget).
    flat; apply transition_addPet; assumption.
  - unfold addPetImage.
    destruct (PetsStorage s !! PetImage_petId payload) as [pet|] eqn:Hget;
      simpl; [|apply transition_none].
    rewrite (keyed_lookup _ _ _ _ Hp Hget).
    flat; apply transition_addPetImage; assumption.
  - unfold updatePetInfo.
    destruct (PetsStorage s !! UpdatePetPayload_petId payload) as [pet|] eqn:Hget;
      simpl; [|apply transition_none].
    destruct (validatePetPayload _) eqn:Hv; simpl; [|apply transition_none].
    rewrite (keyed_lookup _ _ _ _ Hp Hget).
    flat; apply transition_updatePetInfo; assumption.
  - unfold createShelter. destruct (validateShelterPayload payload) eqn:Hv; simpl;
      [|apply transition_none].
    flat; apply transition_createShelter; assumption.
  - unfold updateShelterInfo.
    destruct (SheltersStorage s !! UpdateShelterPayload_id payload) as [shelter|] eqn:Hget;
      simpl; [|apply transition_none].
    destruct (validateShelterPayload _) eqn:Hv; simpl; [|apply transition_none].
    rewrite (keyed_lookup _ _ _ _ Hs Hget).
    flat; apply transition_updateShelterInfo; assumption.
  - unfold fileForAdoption. destruct (validateAdoptionPayload payload) eqn:Hv; simpl;
      [|apply transition_none].
    destruct (UsersStorage s !! AdoptionPayload_userId payload) as [user|] eqn:Huser;
      simpl; [|apply transition_none].
    destruct (PetsStorage s !! AdoptionPayload_petId payload) as [pet|] eqn:Hpet;
      simpl; [|apply transition_none].
    destruct (decide (Pet_status pet = "notAdopted")) as [Hst|Hst].
    + rewrite (bool_decide_eq_true_2 _ Hst). simpl.
      rewrite (keyed_lookup _ _ _ _ Hu Huser), (keyed_lookup _ _ _ _ Hp Hpet).
      flat; apply (transition_fileForAdoption s uuid now payload user pet); assumption.
    + rewrite (bool_decide_eq_false_2 _ Hst). apply transition_none.
  - unfold updateAdoptionRecord.
    destruct (AdoptionsStorage s !! UpdateAdoption_adoptionId payload); simpl;
      [|apply transition_none].
    destruct (_ || _); simpl; apply transition_none.
  - unfold completeAdoption.
    destruct (AdoptionsStorage s !! adoptionId) as [adoption|] eqn:Hget;
      simpl; [|apply transition_none].
    destruct (decide (AdoptionRecords_status adoption = "pending")) as [Hst|Hst].
    + rewrite (bool_decide_eq_true_2 _ Hst). simpl.
      destruct (PetsStorage s !! AdoptionRecords_petId adoption) as [pet|] eqn:Hpet;
        simpl; [|apply transition_none].
      rewrite (keyed_lookup _ _ _ _ Hp Hpet).
      flat; apply transition_completeAdoption; assumption.
    + rewrite (bool_decide_eq_false_2 _ Hst). apply transition_none.
  - unfold failAdoption.
    destruct (AdoptionsStorage s !! adoptionId) as [adoption|] eqn:Hget;
      simpl; [|apply transition_none].
    destruct (decide (AdoptionRecords_status adoption = "pending")) as [Hst|Hst].
    + rewrite (bool_decide_eq_true_2 _ Hst). simpl.
      flat; apply transition_failAdoption; assumption.
    + rewrite (bool_decide_eq_false_2 _ Hst). apply transition_none.
Qed.

Lemma transition_statuses_ok s s' : statuses_ok s -> transition s s' -> statuses_ok s'.
Proof.
  intros [Hp Ha] Ht.
  destruct Ht; split; simpl; intros k0 x Hk; lookups; simpl; eauto.
Qed.

(** A pet payload stays valid when its image is replaced by a non-blank one. *)
Lemma validatePetPayload_image name species breed gender age image image' description
  healthStatus shelterId :
  validatePetPayload (mkPetPayload name species breed gender age image description
                        healthStatus shelterId) = true ->
  Str.nonBlank image' = true ->
  validatePetPayload (mkPetPayload name species breed gender age image' description
                        healthStatus shelterId) = true.
Proof.
  unfold validatePetPayload. simpl. intros H Himage. rewrite Himage.
  repeat match goal with H : _ && _ = true |- _ => apply andb_prop in H as [H ?] end.
  repeat (apply andb_true_intro; split); first [assumption|reflexivity].
Qed.

Lemma transition_stored_valid s s' : stored_valid s -> transition s s' -> stored_valid s'.
Proof.
  intros (Hu & Hs & Hp) Ht. split_and!.
  - destruct Ht; simpl; intros k0 x Hk; lookups; simpl; eauto.
    match goal with H : UsersStorage s !! _ = Some user |- _ => exact (Hu _ _ H) end.
  - destruct Ht; simpl; intros k0 x Hk; lookups; simpl; eauto.
    match goal with H : SheltersStorage s !! _ = Some shelter |- _ => exact (Hs _ _ H) end.
  - destruct Ht; simpl; intros k0 x image Hk Himage; lookups; simpl; eauto.
    + eapply validatePetPayload_image; eassumption.
    + match goal with H : PetsStorage s !! _ = Some pet |- _ => exact (Hp _ _ image H Himage) end.
    + eapply validatePetPayload_image; eassumption.
    + match goal with H : PetsStorage s !! _ = Some pet |- _ => exact (Hp _ _ image H Himage) end.
Qed.

Lemma lookup_insert_other {V : Type} (m : gmap text V) (i j : text) (x y : V) :
  m !! i = None -> m !! j = Some y -> <[i := x]> m !! j = Some y.
Proof. intros Hi Hj. rewrite lookup_insert_ne; [exact Hj|]. intros ->. congruence. Qed.

Lemma transition_applications_ok s s' :
  applications_ok s -> transition s s' -> applications_ok s'.
Proof.
  intros [Hsound Hlisted] Ht.
  destruct Ht as [ | caller uuid payload Hv Hfresh | | | | | 
                 | uuid now payload user pet Hv Hfresh Huser Hpet Hst
                 | adoptionId adoption pet Hget Hst Hpet
                 | adoptionId adoption Hget Hst ];
    try (split; assumption).
  - destruct Hfresh as (Hnone & _). split; simpl.
    + intros k user a Hk Hin. lookups; [inversion Hin|]. eauto.
    + intros a r Hr. destruct (Hlisted a r Hr) as (user & Hk & Hin).
      exists user. split; [|exact Hin]. apply lookup_insert_other; assumption.
  - destruct Hfresh as (_ & _ & _ & Hnone). split; simpl.
    + intros k u a Hk Hin.
      assert (Hold : forall u0, UsersStorage s !! k = Some u0 -> a ∈ User_application u0 ->
                exists r, <[uuid := filedRecord uuid now payload user pet]>
                            (AdoptionsStorage s) !! a = Some r /\ AdoptionRecords_userId r = k).
      { intros u0 Hk0 Hin0. destruct (Hsound k u0 a Hk0 Hin0) as (r & Hr & Hid).
        exists r. split; [|exact Hid]. apply lookup_insert_other; assumption. }
      lookups; [|eauto]. simpl in Hin. apply elem_of_app in Hin as [Hin|Hin]; [eauto|].
      apply list_elem_of_singleton in Hin as ->.
      eexists. split; [apply lookup_insert_eq|reflexivity].
    + intros a r Hr. lookups.
      * simpl. eexists. split; [apply lookup_insert_eq|]. simpl. set_solver.
      * destruct (Hlisted a r Hr) as (u0 & Hk & Hin).
        destruct (decide (AdoptionPayload_userId payload = AdoptionRecords_userId r)) as [Heq|Hne].
        -- rewrite <- Heq in *. rewrite Huser in Hk. injection Hk as <-.
           eexists. split; [apply lookup_insert_eq|]. simpl. set_solver.
        -- exists u0. rewrite lookup_insert_ne by assumption. auto.
  - split; simpl.
    + intros k u a Hk Hin. destruct (Hsound k u a Hk Hin) as (r & Hr & Hid).
      destruct (decide (adoptionId = a)) as [->|Hne].
      * rewrite Hget in Hr. injection Hr as <-.
        eexists. split; [apply lookup_insert_eq|exact Hid].
      * exists r. rewrite lookup_insert_ne by assumption. auto.
    + intros a r Hr. lookups; [|eauto]. simpl. eauto.
  - split; simpl.
    + intros k u a Hk Hin. destruct (Hsound k u a Hk Hin) as (r & Hr & Hid).
      destruct (decide (adoptionId = a)) as [->|Hne].
      * rewrite Hget in Hr. injection Hr as <-.
        eexists. split; [apply lookup_insert_eq|exact Hid].
      * exists r. rewrite lookup_insert_ne by assumption. auto.
    + intros a r Hr. lookups; [|eauto]. simpl. eauto.
Qed.

(** A store update that keeps what a snapshot reads keeps the snapshots. *)
Lemma snapshots_ok_frame s users pets adoptions :
  snapshots_ok s ->
  (forall k user, UsersStorage s !! k = Some user ->
     exists user', users !! k = Some user' /\ User_name user' = User_name user /\
       User_phoneNumber user' = User_phoneNumber user /\ User_address user' = User_address user) ->
  (forall k pet, PetsStorage s !! k = Some pet ->
     exists pet', pets !! k = Some pet' /\ Pet_name pet' = Pet_name pet) ->
  (forall a r, adoptions !! a = Some r ->
     (exists r0, AdoptionsStorage s !! a = Some r0 /\
        AdoptionRecords_userId r = AdoptionRecords_userId r0 /\
        AdoptionRecords_petId r = AdoptionRecords_petId r0 /\
        AdoptionRecords_userName r = AdoptionRecords_userName r0 /\
        AdoptionRecords_userPhoneNumber r = AdoptionRecords_userPhoneNumber r0 /\
        AdoptionRecords_address r = AdoptionRecords_address r0 /\
        AdoptionRecords_petName r = AdoptionRecords_petName r0) \/
     (exists user pet,
        UsersStorage s !! AdoptionRecords_userId r = Some user /\
        PetsStorage s !! AdoptionRecords_petId r = Some pet /\
        AdoptionRecords_userName r = User_name user /\
        AdoptionRecords_userPhoneNumber r = User_phoneNumber user /\
        AdoptionRecords_address r = User_address user /\
        AdoptionRecords_petName r = Pet_name pet)) ->
  snapshots_ok (mkState users pets (SheltersStorage s) adoptions).
Proof.
  intros Hsnap Husers Hpets Hads a r Hr. simpl in *.
  assert (Hnow : exists user pet,
        UsersStorage s !! AdoptionRecords_userId r = Some user /\
        PetsStorage s !! AdoptionRecords_petId r = Some pet /\
        AdoptionRecords_userName r = User_name user /\
        AdoptionRecords_userPhoneNumber r = User_phoneNumber user /\
        AdoptionRecords_address r = User_address user /\
        AdoptionRecords_petName r = Pet_name pet).
  { destruct (Hads a r Hr) as [(r0 & Hr0 & E1 & E2 & E3 & E4 & E5 & E6)|Hnew]; [|exact Hnew].
    destruct (Hsnap a r0 Hr0) as (user & pet & ? & ? & ? & ? & ? & ?).
    exists user, pet. rewrite E1, E2, E3, E4, E5, E6. auto 10. }
  destruct Hnow as (user & pet & Hu & Hp & E3 & E4 & E5 & E6).
  destruct (Husers _ _ Hu) as (user' & Hu' & N1 & N2 & N3).
  destruct (Hpets _ _ Hp) as (pet' & Hp' & N4).
  exists user', pet'. rewrite N1, N2, N3, N4. auto 10.
Qed.

Lemma same_record_kept (s : State) (adoptions : gmap text AdoptionRecords) a r :
  adoptions = AdoptionsStorage s -> adoptions !! a = Some r ->
  exists r0, AdoptionsStorage s !! a = Some r0 /\
    AdoptionRecords_userId r = AdoptionRecords_userId r0 /\
    AdoptionRecords_petId r = AdoptionRecords_petId r0 /\
    AdoptionRecords_userName r = AdoptionRecords_userName r0 /\
    AdoptionRecords_userPhoneNumber r = AdoptionRecords_userPhoneNumber r0 /\
    AdoptionRecords_address r = AdoptionRecords_address r0 /\
    AdoptionRecords_petName r = AdoptionRecords_petName r0.
Proof. intros -> Hr. exists r. auto 10. Qed.

Lemma transition_snapshots_ok s s' : snapshots_ok s -> transition s s' -> snapshots_ok s'.
Proof.
  intros Hsnap Ht.
  destruct Ht as [ | caller uuid payload Hv Hfresh
                 | uuid payload shelter Hv Hfresh Hget
                 | payload pet Hget
                 | payload pet Hget Hv
                 | caller uuid payload Hv Hfresh
                 | payload shelter Hget Hv
                 | uuid now payload user pet Hv Hfresh Huser Hpet Hst
                 | adoptionId adoption pet Hget Hst Hpet
                 | adoptionId adoption Hget Hst ];
    try exact Hsnap.
  - destruct Hfresh as (Hnone & _).
    apply snapshots_ok_frame; [exact Hsnap| | |].
    + intros k u Hk. exists u. split; [apply lookup_insert_other; assumption|auto].
    + eauto.
    + intros a r Hr. left. eapply same_record_kept; [reflexivity|exact Hr].
  - destruct Hfresh as (_ & Hnone & _).
    intros a r Hr. simpl in *. destruct (Hsnap a r Hr) as (u & p & Hu & Hp & Hrest).
    exists u, p. split; [exact Hu|]. split; [apply lookup_insert_other; assumption|exact Hrest].
  - apply snapshots_ok_frame; [exact Hsnap|eauto 10| |].
    + intros k p Hk. destruct (decide (PetImage_petId payload = k)) as [<-|Hne].
      * rewrite Hget in Hk. injection Hk as <-.
        eexists. split; [apply lookup_insert_eq|reflexivity].
      * exists p. rewrite lookup_insert_ne by assumption. auto.
    + intros a r Hr. left. eapply same_record_kept; [reflexivity|exact Hr].
  - apply snapshots_ok_frame; [exact Hsnap|eauto 10| |].
    + intros k p Hk. destruct (decide (UpdatePetPayload_petId payload = k)) as [<-|Hne].
      * rewrite Hget in Hk. injection Hk as <-.
        eexists. split; [apply lookup_insert_eq|reflexivity].
      * exists p. rewrite lookup_insert_ne by assumption. auto.
    + intros a r Hr. left. eapply same_record_kept; [reflexivity|exact Hr].
  - apply snapshots_ok_frame; [exact Hsnap| |eauto|].
    + intros k u Hk. destruct (decide (AdoptionPayload_userId payload = k)) as [<-|Hne].
      * rewrite Huser in Hk. injection Hk as <-.
        eexists. split; [apply lookup_insert_eq|auto].
      * exists u. rewrite lookup_insert_ne by assumption. auto.
    + intros a r Hr. lookups.
      * right. exists user, pet. simpl. auto 10.
      * left. eapply same_record_kept; [reflexivity|exact Hr].
  - apply snapshots_ok_frame; [exact Hsnap|eauto 10| |].
    + intros k p Hk. destruct (decide (AdoptionRecords_petId adoption = k)) as [<-|Hne].
      * rewrite Hpet in Hk. injection Hk as <-.
        eexists. split; [apply lookup_insert_eq|reflexivity].
      * exists p. rewrite lookup_insert_ne by assumption. auto.
    + intros a r Hr. left. lookups.
      * exists adoption. simpl. auto 10.
      * eapply same_record_kept; [reflexivity|exact Hr].
  - apply snapshots_ok_frame; [exact Hsnap|eauto 10|eauto|].
    intros a r Hr. left. lookups.
    + exists adoption. simpl. auto 10.
    + eapply same_record_kept; [reflexivity|exact Hr].
Qed.

Lemma transition_pets_sheltered s s' : pets_sheltered s -> transition s s' -> pets_sheltered s'.
Proof.
  intros Hsh Ht.
  destruct Ht as [ | caller uuid payload Hv Hfresh
                 | uuid payload shelter Hv Hfresh Hget
                 | payload pet Hget
                 | payload pet Hget Hv
                 | caller uuid payload Hv Hfresh
                 | payload shelter Hget Hv
                 | uuid now payload user pet Hv Hfresh Huser Hpet Hst
                 | adoptionId adoption pet Hget Hst Hpet
                 | adoptionId adoption Hget Hst ];
    try exact Hsh; intros k p Hk; simpl in *.
  - lookups.
    + simpl. eexists. split; [apply lookup_insert_eq|]. simpl. set_solver.
    + destruct (Hsh k p Hk) as (sh0 & Hs0 & Hin).
      destruct (decide (PetPayload_shelterId payload = Pet_shelterId p)) as [Heq|Hne].
      * rewrite <- Heq in *. rewrite Hget in Hs0. injection Hs0 as <-.
        eexists. split; [apply lookup_insert_eq|]. simpl. set_solver.
      * exists sh0. rewrite lookup_insert_ne by assumption. auto.
  - lookups; [|eauto]. exact (Hsh _ _ Hget).
  - lookups; [|eauto]. exact (Hsh _ _ Hget).
  - destruct Hfresh as (_ & _ & Hnone & _).
    destruct (Hsh k p Hk) as (sh0 & Hs0 & Hin).
    exists sh0. split; [apply lookup_insert_other; assumption|exact Hin].
  - destruct (Hsh k p Hk) as (sh0 & Hs0 & Hin).
    destruct (decide (UpdateShelterPayload_id payload = Pet_shelterId p)) as [Heq|Hne].
    + rewrite <- Heq in *. rewrite Hget in Hs0. injection Hs0 as <-.
      eexists. split; [apply lookup_insert_eq|exact Hin].
    + exists sh0. rewrite lookup_insert_ne by assumption. auto.
  - lookups; [|eauto]. exact (Hsh _ _ Hpet).
Qed.

Lemma transition_lists_nodup s s' :
  applications_ok s -> refs_ok (PetsStorage s) (SheltersStorage s) ->
  lists_nodup s -> transition s s' -> lists_nodup s'.
Proof.
  intros [Hsound _] Hrefs [Hu Hs] Ht.
  destruct Ht as [ | caller uuid payload Hv Hfresh
                 | uuid payload shelter Hv Hfresh Hget
                 | payload pet Hget
                 | payload pet Hget Hv
                 | caller uuid payload Hv Hfresh
                 | payload shelter Hget Hv
                 | uuid now payload user pet Hv Hfresh Huser Hpet Hst
                 | adoptionId adoption pet Hget Hst Hpet
                 | adoptionId adoption Hget Hst ];
    try (split; assumption); split; simpl; intros k x Hk; lookups; simpl; eauto.
  - constructor.
  - destruct Hfresh as (_ & Hnone & _).
    apply NoDup_app. split_and!; [eauto| |apply NoDup_singleton].
    intros y Hy ->%list_elem_of_singleton.
    revert Hy. eapply refs_ok_not_in; eassumption.
  - constructor.
  - destruct Hfresh as (_ & _ & _ & Hnone).
    apply NoDup_app. split_and!; [eauto| |apply NoDup_singleton].
    intros y Hy ->%list_elem_of_singleton.
    destruct (Hsound _ _ _ Huser Hy) as (r & Hr & _). congruence.
Qed.

Lemma transition_outcomes_ok s s' : outcomes_ok s -> transition s s' -> outcomes_ok s'.
Proof.
  intros [Hdone Hadopted] Ht.
  destruct Ht as [ | caller uuid payload Hv Hfresh
                 | uuid payload shelter Hv Hfresh Hget
                 | payload pet Hget
                 | payload pet Hget Hv
                 | caller uuid payload Hv Hfresh
                 | payload shelter Hget Hv
                 | uuid now payload user pet Hv Hfresh Huser Hpet Hst
                 | adoptionId adoption pet Hget Hst Hpet
                 | adoptionId adoption Hget Hst ];
    try (split; assumption); split; simpl.
  - (* addPet *)
    destruct Hfresh as (_ & Hnone & _). intros a r Hr Hc.
    pose proof (Hdone a r Hr Hc) as Hp.
    destruct (PetsStorage s !! AdoptionRecords_petId r) as [p|] eqn:Hk; [|discriminate].
    rewrite (lookup_insert_other _ _ _ _ _ Hnone Hk). exact Hp.
  - intros k p Hk Hst. lookups; [discriminate|eauto].
  - (* addPetImage *)
    intros a r Hr Hc. pose proof (Hdone a r Hr Hc) as Hp.
    destruct (decide (PetImage_petId payload = AdoptionRecords_petId r)) as [Heq|Hne].
    + rewrite <- Heq in *. rewrite lookup_insert_eq. rewrite Hget in Hp. exact Hp.
    + rewrite lookup_insert_ne by assumption. exact Hp.
  - intros k p Hk Hst. lookups; [|eauto]. exact (Hadopted _ _ Hget Hst).
  - (* updatePetInfo *)
    intros a r Hr Hc. pose proof (Hdone a r Hr Hc) as Hp.
    destruct (decide (UpdatePetPayload_petId payload = AdoptionRecords_petId r)) as [Heq|Hne].
    + rewrite <- Heq in *. rewrite lookup_insert_eq. rewrite Hget in Hp. exact Hp.
    + rewrite lookup_insert_ne by assumption. exact Hp.
  - intros k p Hk Hst'. lookups; [|eauto]. exact (Hadopted _ _ Hget Hst').
  - (* fileForAdoption *)
    intros a r Hr Hc. lookups; [discriminate|eauto].
  - destruct Hfresh as (_ & _ & _ & Hnone). intros k p Hk Hst'.
    destruct (Hadopted k p Hk Hst') as (a & r & Hr & Hid & Hc).
    exists a, r. split; [apply lookup_insert_other; assumption|auto].
  - (* completeAdoption *)
    intros a r Hr Hc.
    assert (Hold : forall r0, AdoptionRecords_petId r0 = AdoptionRecords_petId r ->
              Pet_status <$> PetsStorage s !! AdoptionRecords_petId r0 = Some "adopted" ->
              Pet_status <$> <[AdoptionRecords_petId adoption := Pet_set_status pet "adopted"]>
                (PetsStorage s) !! AdoptionRecords_petId r = Some "adopted").
    { intros r0 Hid Hp. rewrite Hid in Hp.
      destruct (decide (AdoptionRecords_petId adoption = AdoptionRecords_petId r)) as [Heq|Hne].
      - rewrite Heq, lookup_insert_eq. reflexivity.
      - rewrite lookup_insert_ne by assumption. exact Hp. }
    lookups.
    + simpl. rewrite lookup_insert_eq. reflexivity.
    + apply (Hold r); [reflexivity|]. exact (Hdone a r Hr Hc).
  - intros k p Hk Hst'. lookups.
    + exists adoptionId. eexists. split; [apply lookup_insert_eq|]. simpl. auto.
    + destruct (Hadopted k p Hk Hst') as (a & r & Hr & Hid & Hc).
      exists a, r. split; [|auto]. rewrite lookup_insert_ne; [exact Hr|].
      intros ->. congruence.
  - (* failAdoption *)
    intros a r Hr Hc. lookups; [discriminate|eauto].
  - intros k p Hk Hst'.
    destruct (Hadopted k p Hk Hst') as (a & r & Hr & Hid & Hc).
    exists a, r. split; [|auto]. rewrite lookup_insert_ne; [exact Hr|].
    intros ->. congruence.
Qed.

Lemma reachable_transition_invariants s :
  reachable s ->
  statuses_ok s /\ stored_valid s /\ applications_ok s /\ snapshots_ok s /\
  pets_sheltered s /\ lists_nodup s /\ outcomes_ok s.
Proof.
  induction 1 as [|c s Hs IH Hfresh].
  - split_and!; repeat split; simpl; intros *; rewrite ?lookup_empty; discriminate.
  - destruct IH as (H1 & H2 & H3 & H4 & H5 & H6 & H7).
    pose proof (exec_transition c s (reachable_wf s Hs) Hfresh) as Ht.
    split_and!.
    + eapply transition_statuses_ok; eassumption.
    + eapply transition_stored_valid; eassumption.
    + eapply transition_applications_ok; eassumption.
    + eapply transition_snapshots_ok; eassumption.
    + eapply transition_pets_sheltered; eassumption.
    + eapply transition_lists_nodup; [exact H3| |exact H6|exact Ht].
      apply shelter_pets_ok_refs, reachable_shelter_pets_ok, Hs.
    + eapply transition_outcomes_ok; eassumption.
Qed.

Lemma sample_reachable :
  reachable Sample.registered /\ reachable Sample.filed /\
  reachable Sample.filedTwice /\ reachable Sample.completedFirst.
Proof.
  split_and!.
  - apply reachable_run; [apply reachable_init|by_evaluation].
  - change Sample.filed with (run (Sample.setup ++ [Sample.file1]) init).
    apply reachable_run; [apply reachable_init|by_evaluation].
  - change Sample.filedTwice with (run (Sample.setup ++ [Sample.file1; Sample.file2]) init).
    apply reachable_run; [apply reachable_init|by_evaluation].
  - change Sample.completedFirst
      with (run (Sample.setup ++ [Sample.file1; Sample.file2; CallCompleteAdoption "a-1"]) init).
    apply reachable_run; [apply reachable_init|by_evaluation].
Qed.

Lemma User_extends_refl u : User_extends u u.
Proof. unfold User_extends. split_and!; reflexivity. Qed.
Lemma Pet_extends_refl p : Pet_extends p p.
Proof. unfold Pet_extends. split_and!; auto. Qed.
Lemma Shelter_extends_refl sh : Shelter_extends sh sh.
Proof. unfold Shelter_extends. split_and!; reflexivity. Qed.

Lemma transition_users s s' k u :
  transition s s' -> UsersStorage s !! k = Some u ->
  exists u', UsersStorage s' !! k = Some u' /\ User_extends u u'.
Proof.
  intros Ht Hk.
  destruct Ht as [ | caller uuid payload Hv Hfresh | | | | |
                 | uuid now payload user pet Hv Hfresh Huser Hpet Hst | | ];
    simpl; try (exists u; split; [assumption|apply User_extends_refl]).
  - destruct Hfresh as (Hnone & _). exists u.
    split; [apply lookup_insert_other; assumption|apply User_extends_refl].
  - destruct (decide (AdoptionPayload_userId payload = k)) as [<-|Hne].
    + rewrite Huser in Hk. injection Hk as <-.
      eexists. split; [apply lookup_insert_eq|].
      unfold User_extends. simpl. split_and!; try reflexivity.
      apply prefix_app_r. reflexivity.
    + exists u. rewrite lookup_insert_ne by assumption.
      split; [assumption|apply User_extends_refl].
Qed.

Lemma transition_pets s s' k p :
  transition s s' -> PetsStorage s !! k = Some p ->
  exists p', PetsStorage s' !! k = Some p' /\ Pet_extends p p'.
Proof.
  intros Ht Hk.
  destruct Ht as [ | 
                 | uuid payload shelter Hv Hfresh Hget
                 | payload pet Hget
                 | payload pet Hget Hv
                 | | | 
                 | adoptionId adoption pet Hget Hst Hpet
                 | ];
    simpl; try (exists p; split; [assumption|apply Pet_extends_refl]).
  - destruct Hfresh as (_ & Hnone & _). exists p.
    split; [apply lookup_insert_other; assumption|apply Pet_extends_refl].
  - destruct (decide (PetImage_petId payload = k)) as [<-|Hne].
    + rewrite Hget in Hk. injection Hk as <-.
      eexists. split; [apply lookup_insert_eq|].
      unfold Pet_extends. simpl. split_and!; auto.
    + exists p. rewrite lookup_insert_ne by assumption.
      split; [assumption|apply Pet_extends_refl].
  - destruct (decide (UpdatePetPayload_petId payload = k)) as [<-|Hne].
    + rewrite Hget in Hk. injection Hk as <-.
      eexists. split; [apply lookup_insert_eq|].
      unfold Pet_extends. simpl. split_and!; auto.
    + exists p. rewrite lookup_insert_ne by assumption.
      split; [assumption|apply Pet_extends_refl].
  - destruct (decide (AdoptionRecords_petId adoption = k)) as [<-|Hne].
    + rewrite Hpet in Hk. injection Hk as <-.
      eexists. split; [apply lookup_insert_eq|].
      unfold Pet_extends. simpl. split_and!; auto.
    + exists p. rewrite lookup_insert_ne by assumption.
      split; [assumption|apply Pet_extends_refl].
Qed.

Lemma transition_shelters s s' k sh :
  keyed Shelter_id (SheltersStorage s) ->
  transition s s' -> SheltersStorage s !! k = Some sh ->
  exists sh', SheltersStorage s' !! k = Some sh' /\ Shelter_extends sh sh'.
Proof.
  intros Hkeyed Ht Hk.
  destruct Ht as [ | 
                 | uuid payload shelter Hv Hfresh Hget
                 | | 
                 | caller uuid payload Hv Hfresh
                 | payload shelter Hget Hv
                 | | | ];
    simpl; try (exists sh; split; [assumption|apply Shelter_extends_refl]).
  - destruct (decide (PetPayload_shelterId payload = k)) as [<-|Hne].
    + rewrite Hget in Hk. injection Hk as <-.
      eexists. split; [apply lookup_insert_eq|].
      unfold Shelter_extends. simpl. split_and!; try reflexivity.
      apply prefix_app_r. reflexivity.
    + exists sh. rewrite lookup_insert_ne by assumption.
      split; [assumption|apply Shelter_extends_refl].
  - destruct Hfresh as (_ & _ & Hnone & _). exists sh.
    split; [apply lookup_insert_other; assumption|apply Shelter_extends_refl].
  - destruct (decide (UpdateShelterPayload_id payload = k)) as [<-|Hne].
    + rewrite Hget in Hk. injection Hk as <-.
      eexists. split; [apply lookup_insert_eq|].
      unfold Shelter_extends. simpl. split_and!; try reflexivity.
      symmetry. eapply keyed_lookup; eassumption.
    + exists sh. rewrite lookup_insert_ne by assumption.
      split; [assumption|apply Shelter_extends_refl].
Qed.

Lemma transition_adoptions s s' k r :
  transition s s' -> AdoptionsStorage s !! k = Some r ->
  exists r', AdoptionsStorage s' !! k = Some r' /\ AdoptionRecords_extends r r'.
Proof.
  intros Ht Hk.
  destruct Ht as [ | | | | | |
                 | uuid now payload user pet Hv Hfresh Huser Hpet Hst
                 | adoptionId adoption pet Hget Hst Hpet
                 | adoptionId adoption Hget Hst ];
    simpl; try (exists r; split; [assumption|left; reflexivity]).
  - destruct Hfresh as (_ & _ & _ & Hnone). exists r.
    split; [apply lookup_insert_other; assumption|left; reflexivity].
  - destruct (decide (adoptionId = k)) as [<-|Hne].
    + rewrite Hget in Hk. injection Hk as <-.
      eexists. split; [apply lookup_insert_eq|]. right. auto.
    + exists r. rewrite lookup_insert_ne by assumption. split; [assumption|left; reflexivity].
  - destruct (decide (adoptionId = k)) as [<-|Hne].
    + rewrite Hget in Hk. injection Hk as <-.
      eexists. split; [apply lookup_insert_eq|]. right. auto.
    + exists r. rewrite lookup_insert_ne by assumption. split; [assumption|left; reflexivity].
Qed.

Lemma User_extends_trans u1 u2 u3 : User_extends u1 u2 -> User_extends u2 u3 -> User_extends u1 u3.
Proof.
  unfold User_extends. intros (A1 & A2 & A3 & A4 & A5 & A6 & A7) (B1 & B2 & B3 & B4 & B5 & B6 & B7).
  split_and!; try congruence. etrans; eassumption.
Qed.

Lemma Pet_extends_trans p1 p2 p3 : Pet_extends p1 p2 -> Pet_extends p2 p3 -> Pet_extends p1 p3.
Proof.
  unfold Pet_extends.
  intros (A1 & A2 & A3 & A4 & A5 & A6 & A7 & A8) (B1 & B2 & B3 & B4 & B5 & B6 & B7 & B8).
  split_and!; try congruence. destruct A8, B8; auto; left + right; congruence.
Qed.

Lemma Shelter_extends_trans s1 s2 s3 :
  Shelter_extends s1 s2 -> Shelter_extends s2 s3 -> Shelter_extends s1 s3.
Proof.
  unfold Shelter_extends. intros (A1 & A2 & A3 & A4 & A5) (B1 & B2 & B3 & B4 & B5).
  split_and!; try congruence. etrans; eassumption.
Qed.

Lemma AdoptionRecords_extends_trans r1 r2 r3 :
  AdoptionRecords_extends r1 r2 -> AdoptionRecords_extends r2 r3 ->
  AdoptionRecords_extends r1 r3.
Proof.
  unfold AdoptionRecords_extends.
  intros [->|[Hp [->| ->]]] [->|[Hq Hr]]; auto; simpl in Hq; discriminate.
Qed.

Lemma exec_extends_records (c : Call) (s : State) :
  wf s -> uuid_fresh c s ->
  (forall k u, UsersStorage s !! k = Some u ->
     exists u', UsersStorage (exec c s).2 !! k = Some u' /\ User_extends u u') /\
  (forall k p, PetsStorage s !! k = Some p ->
     exists p', PetsStorage (exec c s).2 !! k = Some p' /\ Pet_extends p p') /\
  (forall k sh, SheltersStorage s !! k = Some sh ->
     exists sh', SheltersStorage (exec c s).2 !! k = Some sh' /\ Shelter_extends sh sh') /\
  (forall k r, AdoptionsStorage s !! k = Some r ->
     exists r', AdoptionsStorage (exec c s).2 !! k = Some r' /\ AdoptionRecords_extends r r').
Proof.
  intros Hwf Hfresh. pose proof (exec_transition c s Hwf Hfresh) as Ht.
  split_and!; intros k x Hk.
  - eapply transition_users; eassumption.
  - eapply transition_pets; eassumption.
  - eapply transition_shelters; [apply Hwf|eassumption..].
  - eapply transition_adoptions; eassumption.
Qed.

Lemma run_wf cs s : wf s -> wf (run cs s).
Proof.
  revert s. induction cs as [|c cs IH]; intros s Hwf; [exact Hwf|].
  apply (IH (exec c s).2), exec_wf, Hwf.
Qed.

(** Between the stores before and after any sequence of calls: every
    record is still there under its key; a user keeps its id, principal,
    name, phone number, email and address, and its applications as a prefix
    of the new list; a pet keeps its id, name, species, breed, gender,
    description and shelter, and its status unless it becomes ["adopted"];
    a shelter keeps its id, principal, name and location, and its pets as a
    prefix of the new list; an adoption record is unchanged, or was pending
    and differs only by its status, now ["completed"] or ["failed"]. *)
Theorem run_extends_records (cs : list Call) (s : State) :
  wf s -> trace_fresh cs s ->
  (forall k u, UsersStorage s !! k = Some u ->
     exists u', UsersStorage (run cs s) !! k = Some u' /\ User_extends u u') /\
  (forall k p, PetsStorage s !! k = Some p ->
     exists p', PetsStorage (run cs s) !! k = Some p' /\ Pet_extends p p') /\
  (forall k sh, SheltersStorage s !! k = Some sh ->
     exists sh', SheltersStorage (run cs s) !! k = Some sh' /\ Shelter_extends sh sh') /\
  (forall k r, AdoptionsStorage s !! k = Some r ->
     exists r', AdoptionsStorage (run cs s) !! k = Some r' /\ AdoptionRecords_extends r r').
Proof.
  revert s. induction cs as [|c cs IH]; intros s Hwf Hfresh.
  - split_and!; intros k x Hk; exists x; (split; [exact Hk|]).
    + apply User_extends_refl.
    + apply Pet_extends_refl.
    + apply Shelter_extends_refl.
    + left. reflexivity.
  - destruct Hfresh as [Hc Hcs].
    destruct (exec_extends_records c s Hwf Hc) as (Hu & Hp & Hs & Ha).
    destruct (IH (exec c s).2 (exec_wf c s Hwf) Hcs) as (Hu' & Hp' & Hs' & Ha').
    change (run (c :: cs) s) with (run cs (exec c s).2).
    split_and!; intros k x Hk.
    + destruct (Hu k x Hk) as (y & Hy & E1). destruct (Hu' k y Hy) as (z & Hz & E2).
      exists z. split; [exact Hz|eapply User_extends_trans; eassumption].
    + destruct (Hp k x Hk) as (y & Hy & E1). destruct (Hp' k y Hy) as (z & Hz & E2).
      exists z. split; [exact Hz|eapply Pet_extends_trans; eassumption].
    + destruct (Hs k x Hk) as (y & Hy & E1). destruct (Hs' k y Hy) as (z & Hz & E2).
      exists z. split; [exact Hz|eapply Shelter_extends_trans; eassumption].
    + destruct (Ha k x Hk) as (y & Hy & E1). destruct (Ha' k y Hy) as (z & Hz & E2).
      exists z. split; [exact Hz|eapply AdoptionRecords_extends_trans; eassumption].
Qed.

Lemma run_extends_records_witness :
  let cs := [CallFailAdoption "a-1"; CallCompleteAdoption "a-2";
             CallAddPetImage (mkPetImage "p-1" "rex2.png")] in
  wf Sample.completedFirst /\ trace_fresh cs Sample.completedFirst /\
  (exists p', PetsStorage (run cs Sample.completedFirst) !! "p-1" = Some p' /\
              Pet_name p' = "Rex") /\
  AdoptionRecords_status <$> AdoptionsStorage (run cs Sample.completedFirst) !! "a-1"
    = Some "completed".
Proof.
  intros cs.
  assert (Hwf : wf Sample.completedFirst) by by_evaluation.
  assert (Hfresh : trace_fresh cs Sample.completedFirst) by by_evaluation.
  destruct (run_extends_records cs Sample.completedFirst Hwf Hfresh) as (_ & Hp & _ & Ha).
  split_and!; try assumption.
  - destruct (Hp "p-1" (Pet_set_status (newPet "p-1" Sample.petPayload) "adopted"))
      as (p' & Hp' & _ & Hname & _); [vm_compute; reflexivity|].
    exists p'. split; [exact Hp'|exact Hname].
  - destruct (Ha "a-1" (mkAdoptionRecords "a-1" "u-1" "p-1" "Rex" "Ann" "0798765432"
                          "12 Hill Road" "company" "2024-01-01T00:00:00.000Z" "completed"))
      as (r' & Hr' & [->|[Hpending _]]); [vm_compute; reflexivity| |discriminate].
    exact (f_equal (fmap AdoptionRecords_status) Hr').
Defined.

(** In every reachable state a pet's status is ["notAdopted"] or
    ["adopted"] and an adoption record's status is ["pending"],
    ["completed"] or ["failed"]. *)
Theorem reachable_statuses (s : State) : reachable s -> statuses_ok s.
Proof. intros Hs. apply reachable_transition_invariants, Hs. Qed.

Lemma reachable_statuses_witness :
  reachable Sample.completedFirst /\ statuses_ok Sample.completedFirst.
Proof.
  destruct sample_reachable as (_ & _ & _ & Hs).
  split; [exact Hs|apply (reachable_statuses Sample.completedFirst Hs)].
Defined.

(** In every reachable state the stored users and shelters pass their
    validators, and a stored pet passes [validatePetPayload] as soon as
    its image is one that is not blank (the one field that [addPetImage]
    writes unchecked). *)
Theorem reachable_stored_valid (s : State) : reachable s -> stored_valid s.
Proof. intros Hs. apply reachable_transition_invariants, Hs. Qed.

Lemma reachable_stored_valid_witness :
  reachable Sample.completedFirst /\ stored_valid Sample.completedFirst.
Proof.
  destruct sample_reachable as (_ & _ & _ & Hs).
  split; [exact Hs|apply (reachable_stored_valid Sample.completedFirst Hs)].
Defined.

(** In every reachable state the users' application lists and the
    adoption records agree: each id in a user's list is the key of a record
    whose [userId] is that user's key, and each record is listed by the
    user it names. *)
Theorem reachable_applications (s : State) : reachable s -> applications_ok s.
Proof. intros Hs. apply reachable_transition_invariants, Hs. Qed.

Lemma reachable_applications_witness :
  reachable Sample.filedTwice /\ applications_ok Sample.filedTwice.
Proof.
  destruct sample_reachable as (_ & _ & Hs & _).
  split; [exact Hs|apply (reachable_applications Sample.filedTwice Hs)].
Defined.

(** In every reachable state an adoption record names an existing user
    and an existing pet, and its copies of the user's name, phone number
    and address and of the pet's name equal the current ones: no method
    changes these fields of a user or a pet. *)
Theorem reachable_snapshots (s : State) : reachable s -> snapshots_ok s.
Proof. intros Hs. apply reachable_transition_invariants, Hs. Qed.

Lemma reachable_snapshots_witness :
  reachable Sample.completedFirst /\ snapshots_ok Sample.completedFirst.
Proof.
  destruct sample_reachable as (_ & _ & _ & Hs).
  split; [exact Hs|apply (reachable_snapshots Sample.completedFirst Hs)].
Defined.

(** In every reachable state each pet names an existing shelter whose
    list holds the pet's id, and no other shelter lists it. *)
Theorem reachable_pets_sheltered (s : State) :
  reachable s ->
  pets_sheltered s /\
  (forall k pet sid shelter,
     PetsStorage s !! k = Some pet -> SheltersStorage s !! sid = Some shelter ->
     k ∈ Shelter_pets shelter -> sid = Pet_shelterId pet).
Proof.
  intros Hs. split; [apply reachable_transition_invariants, Hs|].
  intros k pet sid shelter Hk Hsid Hin.
  destruct (reachable_wf s Hs) as (_ & _ & Hkeyed & _).
  destruct (shelter_pets_ok_lookup s sid shelter k (reachable_shelter_pets_ok s Hs) Hsid Hin)
    as (pet' & Hk' & Heq).
  rewrite Hk in Hk'. injection Hk' as <-. rewrite Heq.
  symmetry. eapply keyed_lookup; eassumption.
Qed.

Lemma reachable_pets_sheltered_witness :
  reachable Sample.registered /\
  exists shelter, SheltersStorage Sample.registered !! "s-1" = Some shelter /\
                  "p-1" ∈ Shelter_pets shelter.
Proof.
  destruct sample_reachable as (Hs & _).
  split; [exact Hs|].
  destruct (reachable_pets_sheltered Sample.registered Hs) as [Hsheltered _].
  apply (Hsheltered "p-1" (newPet "p-1" Sample.petPayload)). vm_compute. reflexivity.
Defined.

(** In every reachable state no user's application list and no shelter's
    pet list holds an id twice. *)
Theorem reachable_lists_nodup (s : State) : reachable s -> lists_nodup s.
Proof. intros Hs. apply reachable_transition_invariants, Hs. Qed.

Lemma reachable_lists_nodup_witness :
  reachable Sample.filedTwice /\ lists_nodup Sample.filedTwice.
Proof.
  destruct sample_reachable as (_ & _ & Hs & _).
  split; [exact Hs|apply (reachable_lists_nodup Sample.filedTwice Hs)].
Defined.

(** In every reachable state a pet is ["adopted"] exactly when some
    adoption record for it is ["completed"]; so [getPetsNotAdopted] lists
    the stored pets without a completed adoption. *)
Theorem reachable_adopted_iff_completed (s : State) :
  reachable s ->
  (forall k pet,
     PetsStorage s !! k = Some pet ->
     (Pet_status pet = "adopted" <->
      exists a r, AdoptionsStorage s !! a = Some r /\ AdoptionRecords_petId r = k /\
                  AdoptionRecords_status r = "completed")) /\
  (forall pet,
     pet ∈ getPetsNotAdopted s <->
     (exists k, PetsStorage s !! k = Some pet) /\
     ~ exists a r, AdoptionsStorage s !! a = Some r /\ AdoptionRecords_petId r = Pet_id pet /\
                   AdoptionRecords_status r = "completed").
Proof.
  intros Hs.
  destruct (reachable_transition_invariants s Hs) as ([Hst _] & _ & _ & _ & _ & _ & Hdone & Had).
  destruct (reachable_wf s Hs) as (_ & Hkeyed & _).
  assert (Hiff : forall k pet,
     PetsStorage s !! k = Some pet ->
     (Pet_status pet = "adopted" <->
      exists a r, AdoptionsStorage s !! a = Some r /\ AdoptionRecords_petId r = k /\
                  AdoptionRecords_status r = "completed")).
  { intros k pet Hk. split; [apply Had, Hk|].
    intros (a & r & Hr & <- & Hc). pose proof (Hdone a r Hr Hc) as Hp.
    rewrite Hk in Hp. injection Hp as ->. reflexivity. }
  split; [exact Hiff|].
  intros pet. unfold getPetsNotAdopted. rewrite list_elem_of_filter, elem_of_values. split.
  - intros [Hna [k Hk]]. split; [eauto|].
    rewrite (keyed_lookup _ _ _ _ Hkeyed Hk). intros Hex.
    apply (Hiff k pet Hk) in Hex. congruence.
  - intros [[k Hk] Hno]. split; [|eauto].
    destruct (Hst k pet Hk) as [Hna|Had']; [exact Hna|].
    exfalso. apply Hno. rewrite (keyed_lookup _ _ _ _ Hkeyed Hk). apply (Hiff k pet Hk), Had'.
Qed.

Lemma reachable_adopted_iff_completed_witness :
  reachable Sample.completedFirst /\
  exists a r, AdoptionsStorage Sample.completedFirst !! a = Some r /\
              AdoptionRecords_petId r = "p-1" /\ AdoptionRecords_status r = "completed".
Proof.
  destruct sample_reachable as (_ & _ & _ & Hs).
  split; [exact Hs|].
  destruct (reachable_adopted_iff_completed Sample.completedFirst Hs) as [Hiff _].
  apply (Hiff "p-1" (Pet_set_status (newPet "p-1" Sample.petPayload) "adopted")).
  - vm_compute. reflexivity.
  - reflexivity.
Defined.

(** In every reachable state a valid filing whose ids resolve is accepted
    exactly when no adoption record for that pet is ["completed"]:
    pending and failed records do not stand in its way. *)
Theorem fileForAdoption_accepted_iff (uuid now : text) (payload : AdoptionPayload) (s : State) :
  reachable s ->
  validateAdoptionPayload payload = true ->
  is_Some (UsersStorage s !! AdoptionPayload_userId payload) ->
  is_Some (PetsStorage s !! AdoptionPayload_petId payload) ->
  ((exists r s', fileForAdoption uuid now payload s = (Ok r, s')) <->
   ~ exists a r, AdoptionsStorage s !! a = Some r /\
                 AdoptionRecords_petId r = AdoptionPayload_petId payload /\
                 AdoptionRecords_status r = "completed").
Proof.
  intros Hs Hvalid [user Huser] [pet Hpet].
  destruct (reachable_transition_invariants s Hs) as ([Hst _] & _ & _ & _ & _ & _ & Hdone & Had).
  split.
  - intros (r & s' & Hrun) (a & r0 & Hr0 & Hid & Hc).
    destruct (fileForAdoption_Ok_inv _ _ _ _ _ _ Hrun) as (_ & u & p & _ & Hp & Hna).
    pose proof (Hdone a r0 Hr0 Hc) as Hadopted. rewrite Hid, Hp in Hadopted.
    injection Hadopted as Hadopted. congruence.
  - intros Hno.
    destruct (Hst _ _ Hpet) as [Hna|Hadopted].
    + eexists _, _. apply (fileForAdoption_available uuid now payload s user pet); assumption.
    + exfalso. apply Hno. exact (Had _ _ Hpet Hadopted).
Qed.

Lemma fileForAdoption_accepted_iff_witness :
  reachable Sample.filedTwice /\
  exists r s', fileForAdoption "a-3" "2024-01-03T00:00:00.000Z" Sample.adoptionPayload
                 Sample.filedTwice = (Ok r, s').
Proof.
  destruct sample_reachable as (_ & _ & Hs & _).
  split; [exact Hs|].
  apply (fileForAdoption_accepted_iff "a-3" "2024-01-03T00:00:00.000Z" Sample.adoptionPayload
           Sample.filedTwice Hs).
  - vm_compute. reflexivity.
  - by_evaluation.
  - by_evaluation.
  - intros (a & r & Hr & _ & Hc).
    assert (Hall : map_Forall (fun _ r => AdoptionRecords_status r <> "completed")
                     (AdoptionsStorage Sample.filedTwice)) by by_evaluation.
    exact (map_Forall_lookup_1 _ _ _ _ Hall Hr Hc).
Defined.

Lemma filter_head_spec {A : Type} (P : A -> Prop) `{forall x, Decision (P x)} (l : list A) :
  match filter P l with
  | [] => forall x, x ∈ l -> ~ P x
  | y :: _ => y ∈ l /\ P y
  end.
Proof.
  destruct (filter P l) as [|y l'] eqn:Hf.
  - intros x Hin Hx. eapply filter_nil_not_elem_of; eassumption.
  - assert (Hy : y ∈ filter P l) by (rewrite Hf; left).
    apply list_elem_of_filter in Hy as [HP Hin]. auto.
Qed.

Lemma getUserOwner_found caller s :
  (exists k u, UsersStorage s !! k = Some u /\ User_principal u = caller) ->
  exists u, getUserOwner caller s = Ok u /\
            (exists k, UsersStorage s !! k = Some u) /\ User_principal u = caller.
Proof.
  intros (k & u & Hk & Hp). unfold getUserOwner.
  pose proof (filter_head_spec (fun user => User_principal user = caller)
                (values (UsersStorage s))) as Hspec.
  destruct (filter _ _) as [|y l'].
  - exfalso. apply (Hspec u); [apply elem_of_values; eauto|exact Hp].
  - destruct Hspec as [Hin Hy]. exists y. split; [reflexivity|].
    split; [apply elem_of_values, Hin|exact Hy].
Qed.

Lemma getUserOwner_none caller s :
  (~ exists k u, UsersStorage s !! k = Some u /\ User_principal u = caller) ->
  getUserOwner caller s = Err (NotFound ("User with principal=" ++ caller ++ " not found")).
Proof.
  intros Hno. unfold getUserOwner.
  pose proof (filter_head_spec (fun user => User_principal user = caller)
                (values (UsersStorage s))) as Hspec.
  destruct (filter _ _) as [|y l']; [reflexivity|].
  destruct Hspec as [Hin Hy]. apply elem_of_values in Hin as [k Hk].
  exfalso. apply Hno. eauto.
Qed.

Lemma getShelterOwner_found caller s :
  (exists k sh, SheltersStorage s !! k = Some sh /\ Shelter_principal sh = caller) ->
  exists sh, getShelterOwner caller s = Ok sh /\
             (exists k, SheltersStorage s !! k = Some sh) /\ Shelter_principal sh = caller.
Proof.
  intros (k & sh & Hk & Hp). unfold getShelterOwner.
  pose proof (filter_head_spec (fun shelter => Shelter_principal shelter = caller)
                (values (SheltersStorage s))) as Hspec.
  destruct (filter _ _) as [|y l'].
  - exfalso. apply (Hspec sh); [apply elem_of_values; eauto|exact Hp].
  - destruct Hspec as [Hin Hy]. exists y. split; [reflexivity|].
    split; [apply elem_of_values, Hin|exact Hy].
Qed.

Lemma getShelterOwner_none caller s :
  (~ exists k sh, SheltersStorage s !! k = Some sh /\ Shelter_principal sh = caller) ->
  getShelterOwner caller s =
    Err (NotFound ("Shelter with principal=" ++ caller ++ " not found")).
Proof.
  intros Hno. unfold getShelterOwner.
  pose proof (filter_head_spec (fun shelter => Shelter_principal shelter = caller)
                (values (SheltersStorage s))) as Hspec.
  destruct (filter _ _) as [|y l']; [reflexivity|].
  destruct Hspec as [Hin Hy]. apply elem_of_values in Hin as [k Hk].
  exfalso. apply Hno. eauto.
Qed.

(** The owner queries: [getUserOwner] replies [Ok] exactly when some
    stored user has the caller as principal, and then with such a user;
    otherwise it replies [NotFound].  Likewise [getShelterOwner]. *)
Theorem owner_queries (caller : Principal) (s : State) :
  ((exists k u, UsersStorage s !! k = Some u /\ User_principal u = caller) ->
   exists u, getUserOwner caller s = Ok u /\
             (exists k, UsersStorage s !! k = Some u) /\ User_principal u = caller) /\
  ((~ exists k u, UsersStorage s !! k = Some u /\ User_principal u = caller) ->
   getUserOwner caller s = Err (NotFound ("User with principal=" ++ caller ++ " not found"))) /\
  ((exists k sh, SheltersStorage s !! k = Some sh /\ Shelter_principal sh = caller) ->
   exists sh, getShelterOwner caller s = Ok sh /\
              (exists k, SheltersStorage s !! k = Some sh) /\ Shelter_principal sh = caller) /\
  ((~ exists k sh, SheltersStorage s !! k = Some sh /\ Shelter_principal sh = caller) ->
   getShelterOwner caller s =
     Err (NotFound ("Shelter with principal=" ++ caller ++ " not found"))).
Proof.
  split_and!.
  - apply getUserOwner_found.
  - apply getUserOwner_none.
  - apply getShelterOwner_found.
  - apply getShelterOwner_none.
Qed.

Lemma owner_queries_witness :
  (exists u, getUserOwner "ann" Sample.registered = Ok u /\ User_principal u = "ann") /\
  getShelterOwner "ann" Sample.registered =
    Err (NotFound "Shelter with principal=ann not found").
Proof.
  destruct (owner_queries "ann" Sample.registered) as (Huser & _ & _ & Hnone).
  split.
  - destruct Huser as (u & Hu & _ & Hp).
    + exists "u-1", (newUser "u-1" "ann" Sample.userPayload). split; vm_compute; reflexivity.
    + exists u. split; assumption.
  - apply Hnone. intros (k & sh & Hk & Hp).
    assert (Hall : map_Forall (fun _ sh => Shelter_principal sh <> "ann")
                     (SheltersStorage Sample.registered)) by by_evaluation.
    exact (map_Forall_lookup_1 _ _ _ _ Hall Hk Hp).
Defined.

(** [addUser] followed by the user queries.  An invalid payload is
    refused with [ValidationError] and nothing is stored.  A valid one is
    accepted in every state (the method does not look for a user the
    caller may already have): the new user is stored under the generated
    id with the caller as principal and no applications, [getUser] returns
    it, [getUsers] lists it, [getUserOwner] finds a user of the caller, and
    every other user and the other three stores are as before. *)
Theorem addUser_then_read (caller : Principal) (uuid : text) (payload : UserPayload) (s : State) :
  (validateUserPayload payload = false ->
   addUser caller uuid payload s =
     (Err (ValidationError "Invalid user payload. Please check all fields."), s)) /\
  (validateUserPayload payload = true ->
   exists s',
     addUser caller uuid payload s = (Ok (newUser uuid caller payload), s') /\
     getUser uuid s' = Some (newUser uuid caller payload) /\
     newUser uuid caller payload ∈ getUsers s' /\
     (exists u, getUserOwner caller s' = Ok u /\ User_principal u = caller) /\
     (forall k, k <> uuid -> getUser k s' = getUser k s) /\
     PetsStorage s' = PetsStorage s /\ SheltersStorage s' = SheltersStorage s /\
     AdoptionsStorage s' = AdoptionsStorage s).
Proof.
  split; intros Hv; unfold addUser; rewrite Hv; simpl; [reflexivity|].
  eexists. split; [reflexivity|]. unfold getUser, getUsers. simpl.
  assert (Hget : <[uuid := newUser uuid caller payload]> (UsersStorage s) !! uuid =
                   Some (newUser uuid caller payload)) by apply lookup_insert_eq.
  split_and!; try reflexivity.
  - exact Hget.
  - apply elem_of_values. eauto.
  - destruct (getUserOwner_found caller
                (set_Users s (<[uuid := newUser uuid caller payload]> (UsersStorage s))))
      as (u & Hu & _ & Hp); [|eauto].
    exists uuid, (newUser uuid caller payload). split; [exact Hget|reflexivity].
  - intros k Hne. apply lookup_insert_ne. congruence.
Qed.

Lemma addUser_then_read_witness :
  validateUserPayload Sample.userPayload = true /\
  exists s',
    addUser "ann" "u-2" Sample.userPayload Sample.registered =
      (Ok (newUser "u-2" "ann" Sample.userPayload), s') /\
    getUser "u-2" s' = Some (newUser "u-2" "ann" Sample.userPayload) /\
    getUser "u-1" s' = Some (newUser "u-1" "ann" Sample.userPayload).
Proof.
  assert (Hv : validateUserPayload Sample.userPayload = true) by (vm_compute; reflexivity).
  split; [exact Hv|].
  destruct (addUser_then_read "ann" "u-2" Sample.userPayload Sample.registered) as [_ Hok].
  destruct (Hok Hv) as (s' & Hrun & Hget & _ & _ & Hother & _).
  exists s'. split_and!; [exact Hrun|exact Hget|].
  rewrite (Hother "u-1") by discriminate. vm_compute. reflexivity.
Defined.

(** [createShelter] followed by the shelter queries: an invalid payload
    is refused with [ValidationError]; a valid one is stored under the
    generated id with the caller as principal and an empty pet list,
    [getShelter] returns it, [getShelters] lists it, [getShelterOwner]
    finds a shelter of the caller, and every other shelter and the other
    three stores are as before. *)
Theorem createShelter_then_read
  (caller : Principal) (uuid : text) (payload : ShelterPayload) (s : State) :
  (validateShelterPayload payload = false ->
   createShelter caller uuid payload s =
     (Err (ValidationError "Invalid shelter payload. Please check all fields."), s)) /\
  (validateShelterPayload payload = true ->
   exists s',
     createShelter caller uuid payload s = (Ok (newShelter uuid caller payload), s') /\
     Shelter_pets (newShelter uuid caller payload) = [] /\
     getShelter uuid s' = Some (newShelter uuid caller payload) /\
     newShelter uuid caller payload ∈ getShelters s' /\
     (exists sh, getShelterOwner caller s' = Ok sh /\ Shelter_principal sh = caller) /\
     (forall k, k <> uuid -> getShelter k s' = getShelter k s) /\
     UsersStorage s' = UsersStorage s /\ PetsStorage s' = PetsStorage s /\
     AdoptionsStorage s' = AdoptionsStorage s).
Proof.
  split; intros Hv; unfold createShelter; rewrite Hv; simpl; [reflexivity|].
  eexists. split; [reflexivity|]. unfold getShelter, getShelters. simpl.
  assert (Hget : <[uuid := newShelter uuid caller payload]> (SheltersStorage s) !! uuid =
                   Some (newShelter uuid caller payload)) by apply lookup_insert_eq.
  split_and!; try reflexivity.
  - exact Hget.
  - apply elem_of_values. eauto.
  - destruct (getShelterOwner_found caller
                (set_Shelters s (<[uuid := newShelter uuid caller payload]> (SheltersStorage s))))
      as (sh & Hsh & _ & Hp); [|eauto].
    exists uuid, (newShelter uuid caller payload). split; [exact Hget|reflexivity].
  - intros k Hne. apply lookup_insert_ne. congruence.
Qed.

Lemma createShelter_then_read_witness :
  validateShelterPayload Sample.shelterPayload = true /\
  exists s',
    createShelter "owner" "s-1" Sample.shelterPayload init =
      (Ok (newShelter "s-1" "owner" Sample.shelterPayload), s') /\
    getShelter "s-1" s' = Some (newShelter "s-1" "owner" Sample.shelterPayload).
Proof.
  assert (Hv : validateShelterPayload Sample.shelterPayload = true) by (vm_compute; reflexivity).
  split; [exact Hv|].
  destruct (createShelter_then_read "owner" "s-1" Sample.shelterPayload init) as [_ Hok].
  destruct (Hok Hv) as (s' & Hrun & _ & Hget & _).
  exists s'. split; assumption.
Defined.

(** [addPet] followed by the pet queries.  A valid payload naming an
    existing shelter stores the pet under the generated id with status
    ["notAdopted"]; then [getPet] returns it, [getPets] and
    [getPetsNotAdopted] list it, and [searchPetsBySpecies] finds it under
    every spelling of its species that differs only by case.  An invalid
    payload gives [ValidationError], a valid one naming no shelter gives
    [NotFound], and both leave the stores as they were. *)
Theorem addPet_then_read (uuid : text) (payload : PetPayload) (s : State) :
  (validatePetPayload payload = false ->
   addPet uuid payload s =
     (Err (ValidationError "Invalid pet payload. Please check all fields."), s)) /\
  (validatePetPayload payload = true ->
   SheltersStorage s !! PetPayload_shelterId payload = None ->
   addPet uuid payload s =
     (Err (NotFound ("Shelter with ID " ++ PetPayload_shelterId payload ++ " not found.")), s)) /\
  (validatePetPayload payload = true ->
   is_Some (SheltersStorage s !! PetPayload_shelterId payload) ->
   exists s',
     addPet uuid payload s = (Ok (newPet uuid payload), s') /\
     Pet_status (newPet uuid payload) = "notAdopted" /\
     getPet uuid s' = Some (newPet uuid payload) /\
     newPet uuid payload ∈ getPets s' /\
     newPet uuid payload ∈ getPetsNotAdopted s' /\
     (forall species, equalIgnoringCase (PetPayload_species payload) species ->
        newPet uuid payload ∈ searchPetsBySpecies species s') /\
     (forall k, k <> uuid -> getPet k s' = getPet k s) /\
     UsersStorage s' = UsersStorage s /\ AdoptionsStorage s' = AdoptionsStorage s).
Proof.
  split_and!.
  - intros Hv. unfold addPet. rewrite Hv. reflexivity.
  - intros Hv Hnone. unfold addPet. rewrite Hv, Hnone. reflexivity.
  - intros Hv [shelter Hget]. unfold addPet. rewrite Hv, Hget. simpl.
    eexists. split; [reflexivity|].
    unfold getPet, getPets, getPetsNotAdopted, searchPetsBySpecies. simpl.
    assert (Hnew : <[uuid := newPet uuid payload]> (PetsStorage s) !! uuid =
                     Some (newPet uuid payload)) by apply lookup_insert_eq.
    assert (Hin : newPet uuid payload ∈ values (<[uuid := newPet uuid payload]> (PetsStorage s)))
      by (apply elem_of_values; eauto).
    split_and!; try reflexivity; try assumption.
    + apply list_elem_of_filter. split; [reflexivity|exact Hin].
    + intros species Heq. apply list_elem_of_filter. split; [|exact Hin].
      simpl. apply toLowerCase_eq_iff, Heq.
    + intros k Hne. apply lookup_insert_ne. congruence.
Qed.

Lemma addPet_then_read_witness :
  let s := run [CallCreateShelter "owner" "s-1" Sample.shelterPayload] init in
  validatePetPayload Sample.petPayload = true /\
  is_Some (SheltersStorage s !! PetPayload_shelterId Sample.petPayload) /\
  exists s',
    addPet "p-1" Sample.petPayload s = (Ok (newPet "p-1" Sample.petPayload), s') /\
    getPet "p-1" s' = Some (newPet "p-1" Sample.petPayload) /\
    newPet "p-1" Sample.petPayload ∈ searchPetsBySpecies "DOG" s'.
Proof.
  intros s.
  assert (Hv : validatePetPayload Sample.petPayload = true) by (vm_compute; reflexivity).
  assert (Hsh : is_Some (SheltersStorage s !! PetPayload_shelterId Sample.petPayload))
    by by_evaluation.
  split_and!; try assumption.
  destruct (addPet_then_read "p-1" Sample.petPayload s) as (_ & _ & Hok).
  destruct (Hok Hv Hsh) as (s' & Hrun & _ & Hget & _ & _ & Hsearch & _).
  exists s'. split_and!; try assumption.
  apply Hsearch. apply toLowerCase_eq_iff. reflexivity.
Defined.

Lemma validatePetPayload_blank_image (p : PetPayload) :
  Str.nonBlank (PetPayload_petImage p) = false -> validatePetPayload p = false.
Proof.
  intros Hblank. unfold validatePetPayload. rewrite Hblank, andb_false_r. reflexivity.
Qed.

(** [addPetImage] replaces the image of an existing pet and nothing
    else, and does not validate it: [NotFound] when the pet is absent;
    otherwise the reply is the payload and the pet is stored with the new
    image.  When that image is blank, every later [updatePetInfo] for the
    pet is refused with [ValidationError], whatever the patch. *)
Theorem addPetImage_spec (payload : PetImage) (s : State) :
  wf s ->
  (PetsStorage s !! PetImage_petId payload = None ->
   addPetImage payload s =
     (Err (NotFound ("Pet with ID " ++ PetImage_petId payload ++ " not found.")), s)) /\
  (forall pet,
     PetsStorage s !! PetImage_petId payload = Some pet ->
     exists s',
       addPetImage payload s = (Ok payload, s') /\
       getPet (PetImage_petId payload) s' =
         Some (Pet_set_petImage pet (PetImage_petImage payload)) /\
       (forall k, k <> PetImage_petId payload -> getPet k s' = getPet k s) /\
       UsersStorage s' = UsersStorage s /\ SheltersStorage s' = SheltersStorage s /\
       AdoptionsStorage s' = AdoptionsStorage s /\
       (Str.nonBlank (PetImage_petImage payload) = false ->
        forall patch,
          UpdatePetPayload_petId patch = PetImage_petId payload ->
          updatePetInfo patch s' =
            (Err (ValidationError "Invalid pet payload. Please check all fields."), s'))).
Proof.
  intros (_ & Hp & _ & _). split.
  - intros Hnone. unfold addPetImage. rewrite Hnone. reflexivity.
  - intros pet Hget. unfold addPetImage. rewrite Hget. simpl.
    rewrite (keyed_lookup _ _ _ _ Hp Hget).
    eexists. split; [reflexivity|]. unfold getPet. simpl.
    split_and!; try reflexivity.
    + apply lookup_insert_eq.
    + intros k Hne. apply lookup_insert_ne. congruence.
    + intros Hblank patch Hid. unfold updatePetInfo. simpl.
      rewrite Hid, lookup_insert_eq. simpl.
      rewrite validatePetPayload_blank_image by exact Hblank. reflexivity.
Qed.

Lemma addPetImage_spec_witness :
  let payload := mkPetImage "p-1" "  " in
  wf Sample.registered /\
  exists s',
    addPetImage payload Sample.registered = (Ok payload, s') /\
    updatePetInfo (mkUpdatePetPayload "p-1" "vaccinated" "4") s' =
      (Err (ValidationError "Invalid pet payload. Please check all fields."), s').
Proof.
  intros payload.
  assert (Hwf : wf Sample.registered) by by_evaluation.
  split; [exact Hwf|].
  destruct (addPetImage_spec payload Sample.registered Hwf) as [_ Hok].
  destruct (Hok (newPet "p-1" Sample.petPayload)) as (s' & Hrun & _ & _ & _ & _ & _ & Hblank);
    [vm_compute; reflexivity|].
  exists s'. split; [exact Hrun|]. apply Hblank; reflexivity.
Defined.

(** [updateAdoptionRecord] never replies [Ok] and never changes a store.
    An unknown id gives [NotFound] and an invalid field gives
    [ValidationError]; with a known id and valid fields, for a record of
    any status, the method writes under the key [adoption.id], which an
    [AdoptionRecords] value does not have, and the call is aborted. *)
Theorem updateAdoptionRecord_never_stores (payload : UpdateAdoption) (s : State) :
  (exec (CallUpdateAdoptionRecord payload) s).2 = s /\
  (forall r s', updateAdoptionRecord payload s <> Some (Ok r, s')) /\
  (AdoptionsStorage s !! UpdateAdoption_adoptionId payload = None ->
   updateAdoptionRecord payload s = Some (Err (NotFound "Adoption record not found."), s)) /\
  (forall adoption,
     AdoptionsStorage s !! UpdateAdoption_adoptionId payload = Some adoption ->
     (Str.nonBlank (UpdateAdoption_userName payload) &&
      isValidPhoneNumber (UpdateAdoption_userPhoneNumber payload) &&
      Str.nonBlank (UpdateAdoption_address payload) &&
      Str.nonBlank (UpdateAdoption_reasonForAdoption payload) = false ->
      updateAdoptionRecord payload s =
        Some (Err (ValidationError "Invalid adoption update payload."), s)) /\
     (Str.nonBlank (UpdateAdoption_userName payload) &&
      isValidPhoneNumber (UpdateAdoption_userPhoneNumber payload) &&
      Str.nonBlank (UpdateAdoption_address payload) &&
      Str.nonBlank (UpdateAdoption_reasonForAdoption payload) = true ->
      updateAdoptionRecord payload s = None)).
Proof.
  split_and!.
  - simpl. unfold updateAdoptionRecord.
    destruct (AdoptionsStorage s !! UpdateAdoption_adoptionId payload); [|reflexivity].
    destruct (_ || _); reflexivity.
  - intros r s'. unfold updateAdoptionRecord.
    destruct (AdoptionsStorage s !! UpdateAdoption_adoptionId payload); [|discriminate].
    destruct (_ || _); discriminate.
  - intros Hnone. unfold updateAdoptionRecord. rewrite Hnone. reflexivity.
  - intros adoption Hget. unfold updateAdoptionRecord. rewrite Hget.
    destruct (Str.nonBlank (UpdateAdoption_userName payload));
      destruct (isValidPhoneNumber (UpdateAdoption_userPhoneNumber payload));
      destruct (Str.nonBlank (UpdateAdoption_address payload));
      destruct (Str.nonBlank (UpdateAdoption_reasonForAdoption payload));
      simpl; split; intros H; first [reflexivity|discriminate H].
Qed.

Lemma updateAdoptionRecord_never_stores_witness :
  let payload := mkUpdateAdoption "a-1" "Ann" "0798765432" "9 New Street" "company" in
  updateAdoptionRecord payload Sample.filed = None /\
  (exec (CallUpdateAdoptionRecord payload) Sample.filed).2 = Sample.filed.
Proof.
  intros payload.
  destruct (updateAdoptionRecord_never_stores payload Sample.filed) as (Hsame & _ & _ & Hknown).
  split; [|exact Hsame].
  destruct (Hknown (mkAdoptionRecords "a-1" "u-1" "p-1" "Rex" "Ann" "0798765432" "12 Hill Road"
                      "company" "2024-01-01T00:00:00.000Z" "pending")) as [_ Hvalid];
    [vm_compute; reflexivity|].
  apply Hvalid. vm_compute. reflexivity.
Defined.

Lemma values_keyed {V : Type} (id : V -> text) (m : gmap text V) :
  keyed id m ->
  (forall v, v ∈ values m <-> m !! id v = Some v) /\
  NoDup (values m) /\
  length (values m) = size m.
Proof.
  intros Hkeyed. split_and!.
  - intros v. rewrite elem_of_values. split.
    + intros [k Hk]. rewrite (keyed_lookup _ _ _ _ Hkeyed Hk). exact Hk.
    + eauto.
  - unfold values. apply NoDup_fmap_2_strong; [|apply NoDup_map_to_list].
    intros [k1 v1] [k2 v2] H1 H2 Heq. simpl in Heq. subst v2.
    apply elem_of_map_to_list in H1, H2.
    rewrite <- (keyed_lookup _ _ _ _ Hkeyed H1), <- (keyed_lookup _ _ _ _ Hkeyed H2).
    reflexivity.
  - unfold values. rewrite length_fmap. apply length_map_to_list.
Qed.

(** The listing queries and the lookups by id agree, in a state whose
    records are stored under their own ids (as in every reachable state):
    a record is listed exactly when the lookup of its own id returns it,
    no list holds a record twice, and each list is as long as its store. *)
Theorem listing_queries (s : State) :
  wf s ->
  ((forall u, u ∈ getUsers s <-> getUser (User_id u) s = Some u) /\
   NoDup (getUsers s) /\ length (getUsers s) = size (UsersStorage s)) /\
  ((forall p, p ∈ getPets s <-> getPet (Pet_id p) s = Some p) /\
   NoDup (getPets s) /\ length (getPets s) = size (PetsStorage s)) /\
  ((forall sh, sh ∈ getShelters s <-> getShelter (Shelter_id sh) s = Some sh) /\
   NoDup (getShelters s) /\ length (getShelters s) = size (SheltersStorage s)) /\
  ((forall r, r ∈ getAdoptionRecords s <->
              getAdoptionRecord (AdoptionRecords_adoptionId r) s = Some r) /\
   NoDup (getAdoptionRecords s) /\
   length (getAdoptionRecords s) = size (AdoptionsStorage s)).
Proof.
  intros (Hu & Hp & Hs & Ha). refine (conj _ (conj _ (conj _ _))).
  - exact (values_keyed _ _ Hu).
  - exact (values_keyed _ _ Hp).
  - exact (values_keyed _ _ Hs).
  - exact (values_keyed _ _ Ha).
Qed.

Lemma listing_queries_witness :
  wf Sample.filedTwice /\
  length (getAdoptionRecords Sample.filedTwice) = 2 /\
  NoDup (getAdoptionRecords Sample.filedTwice).
Proof.
  assert (Hwf : wf Sample.filedTwice) by by_evaluation.
  destruct (listing_queries Sample.filedTwice Hwf) as (_ & _ & _ & _ & Hnodup & Hlen).
  split_and!; [exact Hwf| |exact Hnodup].
  rewrite Hlen. vm_compute. reflexivity.
Defined.

(** [completeAdoption] does not look at the pet's status: two pending
    records for the same pet can both be completed, one after the other,
    and the pet then has two completed adoptions. *)
Theorem completeAdoption_both_pending (a1 a2 : text) (r1 r2 : AdoptionRecords) (s : State) :
  wf s -> a1 <> a2 ->
  AdoptionsStorage s !! a1 = Some r1 -> AdoptionsStorage s !! a2 = Some r2 ->
  AdoptionRecords_status r1 = "pending" -> AdoptionRecords_status r2 = "pending" ->
  AdoptionRecords_petId r1 = AdoptionRecords_petId r2 ->
  is_Some (PetsStorage s !! AdoptionRecords_petId r1) ->
  exists s1 s2,
    completeAdoption a1 s = (Ok (AdoptionRecords_set_status r1 "completed"), s1) /\
    completeAdoption a2 s1 = (Ok (AdoptionRecords_set_status r2 "completed"), s2) /\
    AdoptionsStorage s2 !! a1 = Some (AdoptionRecords_set_status r1 "completed") /\
    AdoptionsStorage s2 !! a2 = Some (AdoptionRecords_set_status r2 "completed") /\
    Pet_status <$> PetsStorage s2 !! AdoptionRecords_petId r1 = Some "adopted".
Proof.
  intros (_ & Hp & _ & _) Hne H1 H2 Hst1 Hst2 Hsame [pet Hpet].
  pose proof (completeAdoption_pending a1 s r1 pet H1 Hst1 Hpet) as Hrun1.
  rewrite (keyed_lookup _ _ _ _ Hp Hpet) in Hrun1.
  set (s1 := mkState _ _ _ _) in Hrun1.
  assert (H2' : AdoptionsStorage s1 !! a2 = Some r2)
    by (simpl; rewrite lookup_insert_ne by assumption; exact H2).
  assert (Hpet' : PetsStorage s1 !! AdoptionRecords_petId r2 = Some (Pet_set_status pet "adopted"))
    by (simpl; rewrite <- Hsame; apply lookup_insert_eq).
  pose proof (completeAdoption_pending a2 s1 r2 _ H2' Hst2 Hpet') as Hrun2.
  simpl in Hrun2.
  eexists _, _. split; [exact Hrun1|]. split; [exact Hrun2|]. simpl. split_and!.
  - rewrite lookup_insert_ne by congruence. apply lookup_insert_eq.
  - apply lookup_insert_eq.
  - rewrite (keyed_lookup _ _ _ _ Hp Hpet), lookup_insert_eq. reflexivity.
Qed.

Lemma completeAdoption_both_pending_witness :
  wf Sample.filedTwice /\
  exists s1 s2 r1 r2,
    completeAdoption "a-1" Sample.filedTwice = (Ok r1, s1) /\
    completeAdoption "a-2" s1 = (Ok r2, s2) /\
    AdoptionRecords_petId r1 = "p-1" /\ AdoptionRecords_petId r2 = "p-1" /\
    AdoptionRecords_status r1 = "completed" /\ AdoptionRecords_status r2 = "completed".
Proof.
  assert (Hwf : wf Sample.filedTwice) by by_evaluation.
  split; [exact Hwf|].
  destruct (completeAdoption_both_pending "a-1" "a-2"
    (mkAdoptionRecords "a-1" "u-1" "p-1" "Rex" "Ann" "0798765432" "12 Hill Road"
       "company" "2024-01-01T00:00:00.000Z" "pending")
    (mkAdoptionRecords "a-2" "u-1" "p-1" "Rex" "Ann" "0798765432" "12 Hill Road"
       "company" "2024-01-02T00:00:00.000Z" "pending")
    Sample.filedTwice Hwf) as (s1 & s2 & Hrun1 & Hrun2 & _);
    try (vm_compute; reflexivity); [discriminate|by_evaluation|].
  eexists s1, s2, _, _. split; [exact Hrun1|]. split; [exact Hrun2|].
  split_and!; reflexivity.
Defined.

Lemma isValidPhoneNumber_iff_witness :
  isValidPhoneNumber "0712345678" = true /\ String.length "0712345678" = 10.
Proof.
  split; [|reflexivity].
  apply (isValidPhoneNumber_iff "0712345678"). split; [simpl; lia|reflexivity].
Defined.

Lemma isValidEmail_iff_witness :
  isValidEmail "ann@example.org" = true /\ isValidEmail "ann@example" = false.
Proof.
  split.
  - apply (isValidEmail_iff "ann@example.org").
    exists "ann", "example", "org". split_and!; try discriminate; reflexivity.
  - reflexivity.
Defined.

Lemma nonBlank_iff_witness :
  Str.nonBlank " x " = true /\ Str.nonBlank "   " = false.
Proof.
  split.
  - apply (nonBlank_iff " x "). reflexivity.
  - apply (nonBlank_iff "   "). reflexivity.
Defined.
